(** * Backtesting project: the multi-order RSI strategy and the Sharpe metrics

    A shallow embedding of [src/strategies.py] (class [MultiOrderRSI]) and of
    [compute_sharpe_metrics] in [src/data_utils.py], with the properties of
    the two that the specification states.

    Prices, indicator values and returns are Python floats: IEEE 754 binary64,
    here Rocq's primitive floats, with the same comparison and arithmetic
    (comparisons with NaN are false, division by zero gives an infinity or
    NaN).  Timestamps are integers (seconds), calendar dates are day numbers. *)

From Stdlib Require Import ZArith Lia Bool String Uint63 Floats.
From stdpp Require Import base decidable option numbers list sorting.

(** Python's [x > y] on floats. *)
Definition gtb (x y : float) : bool := PrimFloat.ltb y x.

(** The exceptions that the properties speak of.  The code defines none of
    its own: [ValueError] and [AttributeError] are what the interpreter and
    the data-frame library raise; the last three are the errors that the
    specification names. *)
Inductive exception :=
  | ValueError
  | AttributeError
  | Dangling     (* a reference outside the object store; only the model has it *)
  | DataError
  | EmptyLedgerError
  | DegenerateSeriesError.

Module Strategies.

(** ** Data *)

(** The value of the key ["type"] of a position. *)
Inductive side := long | short.

Definition side_eqb (a b : side) : bool :=
  match a, b with
  | long, long | short, short => true
  | _, _ => false
  end.

(** An order handle as the framework's [buy()] and [sell()] return it: its
    direction and its serial number among the orders of the run. *)
Inductive order :=
  | Buy (serial : nat)
  | Sell (serial : nat).

(** The keys that the closing loop adds to a position. *)
Record exit_fields := {
  exit_order : order;
  exit_rsi : float;
  exit_time : Z;
  exit_price : float;
  pnl : float
}.

(** A position: the dict appended to [open_positions].  The exit keys are
    absent ([None]) until the position is closed. *)
Record position := {
  type : side;
  entry_rsi : float;
  entry_price : float;
  entry_time : Z;
  order_ref : order;
  exit : option exit_fields
}.

(** [params] of the strategy. *)
Record params := {
  rsi_period : nat;
  buy_rsi : float;
  sell_rsi : float;
  exit_buy_rsi : float;
  exit_sell_rsi : float
}.

Definition default_params : params :=
  {| rsi_period := 14; buy_rsi := 30; sell_rsi := 70;
     exit_buy_rsi := 70; exit_sell_rsi := 30 |}.

(** What [next] reads of the current bar: [self.rsi[0]], [self.data.close[0]]
    and [self.data.datetime.datetime(0)]. *)
Record bar := {
  rsi : float;
  close : float;
  datetime : Z
}.

(** A reference to a dict of the object store. *)
Abbreviation loc := nat (only parsing).

(** The strategy object.  Position dicts are shared between the lists and
    mutated in place, so the lists hold references into [objects]; [broker]
    is the sequence of orders issued so far. *)
Record strategy := {
  objects : list position;
  open_positions : list loc;
  closed_positions : list loc;
  broker : list order
}.

(** [__init__]. *)
Definition init : strategy :=
  {| objects := []; open_positions := []; closed_positions := []; broker := [] |}.

(** ** Effects: state and exceptions *)

Inductive outcome (A : Type) :=
  | Ok (a : A) (s : strategy)
  | Raise (e : exception) (s : strategy).
Arguments Ok {A} a s.
Arguments Raise {A} e s.

Definition M (A : Type) : Type := strategy -> outcome A.

Definition ret {A} (a : A) : M A := fun s => Ok a s.

Definition bind {A B} (m : M A) (k : A -> M B) : M B :=
  fun s => match m s with
           | Ok a s' => k a s'
           | Raise e s' => Raise e s'
           end.

Notation "'let*' x := m 'in' k" := (bind m (fun x => k))
  (at level 10, x name, m at level 100, k at level 200).
Notation "m ;; k" := (bind m (fun _ => k))
  (at level 100, k at level 200, right associativity).

(** [self.buy()] and [self.sell()]: a new order goes to the broker. *)
Definition buy : M order :=
  fun s => let o := Buy (length (broker s)) in
           Ok o {| objects := objects s; open_positions := open_positions s;
                   closed_positions := closed_positions s;
                   broker := broker s ++ [o] |}.

Definition sell : M order :=
  fun s => let o := Sell (length (broker s)) in
           Ok o {| objects := objects s; open_positions := open_positions s;
                   closed_positions := closed_positions s;
                   broker := broker s ++ [o] |}.

(** [self.open_positions.append({...})]: a new dict is allocated and its
    reference appended. *)
Definition append_open (p : position) : M unit :=
  fun s => Ok tt {| objects := objects s ++ [p];
                    open_positions := open_positions s ++ [length (objects s)];
                    closed_positions := closed_positions s;
                    broker := broker s |}.

(** Reading a dict through a reference. *)
Definition deref (r : loc) : M position :=
  fun s => match objects s !! r with
           | Some p => Ok p s
           | None => Raise Dangling s
           end.

(** The five assignments [pos["exit_order"] = order] ... [pos["pnl"] = ...]
    of the closing loop, on the dict itself. *)
Definition mark (b : bar) (o : order) (p : position) : position :=
  {| type := type p; entry_rsi := entry_rsi p; entry_price := entry_price p;
     entry_time := entry_time p; order_ref := order_ref p;
     exit := Some {| exit_order := o; exit_rsi := rsi b;
                     exit_time := datetime b; exit_price := close b;
                     pnl := if side_eqb (type p) long
                            then PrimFloat.sub (close b) (entry_price p)
                            else PrimFloat.sub (entry_price p) (close b) |} |}.

Definition set_exit (b : bar) (r : loc) (o : order) : M unit :=
  fun s => match objects s !! r with
           | Some _ =>
               Ok tt {| objects := alter (mark b o) r (objects s);
                        open_positions := open_positions s;
                        closed_positions := closed_positions s;
                        broker := broker s |}
           | None => Raise Dangling s
           end.

(** [self.closed_positions.append(pos)]. *)
Definition append_closed (r : loc) : M unit :=
  fun s => Ok tt {| objects := objects s;
                    open_positions := open_positions s;
                    closed_positions := closed_positions s ++ [r];
                    broker := broker s |}.

(** Python's [list.remove]: the first item for which the comparison answers
    true is dropped; [None] when there is none (a [ValueError]). *)
Fixpoint list_remove {A} (same : A -> bool) (l : list A) : option (list A) :=
  match l with
  | [] => None
  | a :: l' => if same a then Some l' else cons a <$> list_remove same l'
  end.

Section Engine.

(** Python's [==] on the values of two dicts that have the same keys (floats,
    datetimes and order handles, with the interpreter's shortcut for identical
    objects).  Nothing below depends on what it answers. *)
Variable value_eq : position -> position -> bool.

(** The strategy's parameters, [self.p]. *)
Variable p : params.

(** [==] on two dicts: the same keys, then equal values. *)
Definition dict_eq (a b : position) : bool :=
  match exit a, exit b with
  | None, None | Some _, Some _ => value_eq a b
  | _, _ => false
  end.

(** The test [list.remove] applies to an item [r] for the value [x]: the same
    object, or an equal one. *)
Definition item_eq (objs : list position) (x r : loc) : bool :=
  Nat.eqb r x ||
  match objs !! r, objs !! x with
  | Some a, Some b => dict_eq a b
  | _, _ => false
  end.

(** [self.open_positions.remove(pos)]. *)
Definition remove_open (r : loc) : M unit :=
  fun s => match list_remove (item_eq (objects s) r) (open_positions s) with
           | Some l =>
               Ok tt {| objects := objects s; open_positions := l;
                        closed_positions := closed_positions s;
                        broker := broker s |}
           | None => Raise ValueError s
           end.

(** The body of the exit scan for one position: the two [if]s in turn. *)
Definition scan_pos (b : bar) (r : loc) (acc : list (loc * order))
  : M (list (loc * order)) :=
  let* pos := deref r in
  let* acc1 :=
    (if side_eqb (type pos) long && gtb (rsi b) (exit_buy_rsi p)
     then let* o := sell in ret (acc ++ [(r, o)])
     else ret acc) in
  if side_eqb (type pos) short && PrimFloat.ltb (rsi b) (exit_sell_rsi p)
  then let* o := buy in ret (acc1 ++ [(r, o)])
  else ret acc1.

(** [for pos in self.open_positions: ...], filling [positions_to_close]. *)
Fixpoint scan (b : bar) (l : list loc) (acc : list (loc * order))
  : M (list (loc * order)) :=
  match l with
  | [] => ret acc
  | r :: l' => let* acc' := scan_pos b r acc in scan b l' acc'
  end.

(** The body of the closing loop. *)
Definition close_pos (b : bar) (ro : loc * order) : M unit :=
  set_exit b ro.1 ro.2 ;;
  append_closed ro.1 ;;
  remove_open ro.1.

(** [for pos, order in positions_to_close: ...]. *)
Fixpoint close_all (b : bar) (todo : list (loc * order)) : M unit :=
  match todo with
  | [] => ret tt
  | ro :: todo' => close_pos b ro ;; close_all b todo'
  end.

(** The dict of a new position. *)
Definition new_position (sd : side) (b : bar) (o : order) : position :=
  {| type := sd; entry_rsi := rsi b; entry_price := close b;
     entry_time := datetime b; order_ref := o; exit := None |}.

(** Steps 1 and 2 of [next]: the entries. *)
Definition entries (b : bar) : M unit :=
  (if PrimFloat.ltb (rsi b) (buy_rsi p)
   then let* o := buy in append_open (new_position long b o)
   else ret tt) ;;
  (if gtb (rsi b) (sell_rsi p)
   then let* o := sell in append_open (new_position short b o)
   else ret tt).

(** Step 3 of [next]: the exit scan and the closing loop. *)
Definition exits (b : bar) : M unit :=
  fun s => (let* positions_to_close := scan b (open_positions s) [] in
            close_all b positions_to_close) s.

(** [MultiOrderRSI.next]. *)
Definition next (b : bar) : M unit :=
  entries b ;; exits b.

(** The replay: [next] once per bar, in order; an exception ends it. *)
Fixpoint run (bs : list bar) : M unit :=
  match bs with
  | [] => ret tt
  | b :: bs' => next b ;; run bs'
  end.

(** *** What the properties speak of *)

(** The positions that the entries of bar [b] create, given that the broker
    has issued [n] orders so far. *)
Definition entered (b : bar) (n : nat) : list position :=
  (if PrimFloat.ltb (rsi b) (buy_rsi p)
   then [new_position long b (Buy n)] else []) ++
  (if gtb (rsi b) (sell_rsi p)
   then [new_position short b
           (Sell (if PrimFloat.ltb (rsi b) (buy_rsi p) then S n else n))]
   else []).

(** The state that the entries of bar [b] lead to. *)
Definition after_entries (b : bar) (s : strategy) : strategy :=
  let news := entered b (length (broker s)) in
  {| objects := objects s ++ news;
     open_positions :=
       open_positions s ++ seq (length (objects s)) (length news);
     closed_positions := closed_positions s;
     broker := broker s ++ (order_ref <$> news) |}.

(** The exit condition of the scan for a position [q]. *)
Definition exit_signal (b : bar) (q : position) : bool :=
  (side_eqb (type q) long && gtb (rsi b) (exit_buy_rsi p)) ||
  (side_eqb (type q) short && PrimFloat.ltb (rsi b) (exit_sell_rsi p)).

(** The position behind [r] is due for closing on bar [b]. *)
Definition due (objs : list position) (b : bar) (r : loc) : bool :=
  match objs !! r with
  | Some q => exit_signal b q
  | None => false
  end.

End Engine.

(** The dict behind [r] exists and has no exit keys. *)
Definition unclosed (objs : list position) (r : loc) : bool :=
  match objs !! r with
  | Some q => match exit q with None => true | Some _ => false end
  | None => false
  end.

(** The invariant of the strategy object between two calls of [next]: no
    position is listed twice as open, and an open position has no exit keys. *)
Definition wf (s : strategy) : Prop :=
  NoDup (open_positions s) /\
  Forall (fun r => unclosed (objects s) r = true) (open_positions s).

#[global] Instance wf_dec (s : strategy) : Decision (wf s).
Proof. unfold wf. apply _. Defined.

(** The state with the orders [os] added to the broker's. *)
Definition issue (s : strategy) (os : list order) : strategy :=
  {| objects := objects s; open_positions := open_positions s;
     closed_positions := closed_positions s; broker := broker s ++ os |}.

(** The store once the closing loop has run over [todo]. *)
Definition marked (b : bar) (todo : list (loc * order)) (objs : list position)
  : list position :=
  foldl (fun h ro => alter (mark b ro.2) ro.1 h) objs todo.

(** The positions created since the store had [n] dicts. *)
Definition created (n : nat) (s : strategy) : list position :=
  drop n (objects s).

(** The references appended to [closed_positions] since it had [n] items. *)
Definition newly_closed (n : nat) (s : strategy) : list loc :=
  drop n (closed_positions s).

Definition is_long (q : position) : bool := side_eqb (type q) long.
Definition is_short (q : position) : bool := side_eqb (type q) short.

(** *** Sample data *)

(** The comparison that holds any two dicts with the same keys for equal. *)
Definition always_equal (a b : position) : bool := true.

(** Thresholds that overlap: at an indicator value of 50 both entries fire
    and both exit conditions hold. *)
Definition overlapping : params :=
  {| rsi_period := 14; buy_rsi := 60; sell_rsi := 40;
     exit_buy_rsi := 40; exit_sell_rsi := 60 |}.

Definition bar_at (t : Z) (price indicator : float) : bar :=
  {| rsi := indicator; close := price; datetime := t |}.

(** The strategy with the default parameters after two bars that each
    opened a long. *)
Definition two_longs : strategy :=
  Eval vm_compute in
    match run always_equal default_params
            [bar_at 0 100 20; bar_at 60 101 25] init with
    | Ok _ s | Raise _ s => s
    end.

End Strategies.

Module DataUtils.

(** ** The libraries

    [compute_sharpe_metrics] is a sequence of calls of the data-frame library
    and of the array library under it.  Two things that these calls do are
    not settled by the code of this repository, and are taken as the call
    finds them, as the fields of a [library]: how the sums of floats are
    rounded, and the class of the exception that a date range without bounds
    ends in. *)

(** The exception that the library raises when the bounds of a date range
    are not dates.  Its class depends on the version of the library. *)
Inductive bounds_error :=
  | BoundsValueError
  | BoundsAttributeError.

Definition raised (e : bounds_error) : exception :=
  match e with
  | BoundsValueError => ValueError
  | BoundsAttributeError => AttributeError
  end.

Record library := {
  (** [groupby(key)[col].sum()] on the values of one group, in the order of
      the rows; the library decides what a NaN among them counts for. *)
  group_sum : list float -> float;
  (** [ndarray.sum()] of an array of floats: the sum behind [Series.mean()]
      and [Series.std()]. *)
  array_sum : list float -> float;
  (** What [pd.date_range] without bounds raises. *)
  no_bounds : bounds_error
}.

(** ** Data *)

(** [float(n)] for a count. *)
Definition of_nat (n : nat) : float :=
  PrimFloat.of_uint63 (Uint63.of_Z (Z.of_nat n)).

Definition seconds_per_day : Z := 86400.

(** [.dt.date]: the calendar day of a timestamp, as a day number. *)
Definition date_of (t : Z) : Z := (t / seconds_per_day)%Z.

(** One row of the ledger: the two columns that the function reads. *)
Record row := {
  exit_time : Z;
  pnl : float
}.

(** The ledger as a data frame: its rows, the column [exit_date] when the
    frame has one, and its other columns, which the function neither reads
    nor writes (name and cells as text). *)
Record DataFrame := {
  rows : list row;
  exit_date : option (list Z);
  others : list (string * list string)
}.

(** What a call gives back: a value or an exception. *)
Inductive result (A : Type) :=
  | Returns (a : A)
  | Raises (e : exception).
Arguments Returns {A} a.
Arguments Raises {A} e.

(** [Index.min()] and [Index.max()]: not a value on an empty index. *)
Definition index_min (l : list Z) : option Z :=
  match l with
  | [] => None
  | x :: l' => Some (fold_left Z.min l' x)
  end.

Definition index_max (l : list Z) : option Z :=
  match l with
  | [] => None
  | x :: l' => Some (fold_left Z.max l' x)
  end.

(** The value of a series at the label [d], if it has that label. *)
Fixpoint at_label (d : Z) (s : list (Z * float)) : option float :=
  match s with
  | [] => None
  | (k, v) :: s' => if Z.eqb k d then Some v else at_label d s'
  end.

(** [reindex]: the series on the new labels, NaN where it had none. *)
Definition reindex (s : list (Z * float)) (labels : list Z) : list (Z * float) :=
  (fun d => (d, default PrimFloat.nan (at_label d s))) <$> labels.

(** [fillna(0.0)]: every NaN of the frame becomes [0.0]. *)
Definition fillna0 (x : float) : float :=
  if PrimFloat.is_nan x then 0%float else x.

Definition fillna (s : list (Z * float)) : list (Z * float) :=
  (fun kv => (fst kv, fillna0 (snd kv))) <$> s.

(** The frame once [df["exit_date"] = ...] has run. *)
Definition with_exit_date (df : DataFrame) : DataFrame :=
  {| rows := rows df;
     exit_date := Some ((fun r => date_of (exit_time r)) <$> rows df);
     others := others df |}.

(** The values of the rows whose key is [d], in the order of the rows. *)
Definition group_values (d : Z) (keys : list Z) (vals : list float) : list float :=
  snd <$> List.filter (fun kv => Z.eqb (fst kv) d) (zip keys vals).

(** The four results, in the order of the [return]. *)
Definition metrics : Type := list (Z * float) * float * float * float.

(** The default of [risk_free_rate]. *)
Definition default_risk_free_rate : float := 0x1.a36e2eb1c432dp-12%float.

(** ** The steps of [compute_sharpe_metrics] *)

Section Calls.

Variable lib : library.

(** The number of values of a series that are not NaN. *)
Definition count (xs : list float) : nat :=
  length (List.filter (fun x => negb (PrimFloat.is_nan x)) xs).

(** [Series.mean()], which skips NaN: the sum of the values, with [0.0] in
    the place of each NaN, over the number of values that are not NaN. *)
Definition mean (xs : list float) : float :=
  let values := fillna0 <$> xs in
  let count := count xs in
  let the_sum := array_sum lib values in
  if (0 <? count)%nat then PrimFloat.div the_sum (of_nat count)
  else PrimFloat.nan.

(** [Series.std()], with the library's default [ddof=1]: NaN when there are
    not more values than [ddof]; else the square root of the sum of the
    squared differences with the average over [count - ddof]. *)
Definition std (xs : list float) : float :=
  let values := fillna0 <$> xs in
  let count := count xs in
  if (count <=? 1)%nat then PrimFloat.nan
  else
    let avg := PrimFloat.div (array_sum lib values) (of_nat count) in
    let sqr :=
      (fun x => if PrimFloat.is_nan x then 0%float
                else let d := PrimFloat.sub avg x in PrimFloat.mul d d)
        <$> xs in
    PrimFloat.sqrt (PrimFloat.div (array_sum lib sqr) (of_nat (count - 1))).

(** [groupby(key)[col].sum()]: one entry per distinct key, keys in increasing
    order. *)
Definition groupby_sum (keys : list Z) (vals : list float) : list (Z * float) :=
  (fun d => (d, group_sum lib (group_values d keys vals)))
    <$> merge_sort Z.le (remove_dups keys).

(** [pd.date_range(start, end, freq="D")]: refused when a bound is not a
    date, else every day from [start] to [end], both included. *)
Definition date_range (start_date end_date : option Z) : result (list Z) :=
  match start_date, end_date with
  | Some a, Some b => Returns (seqZ a (b - a + 1))
  | _, _ => Raises (raised (no_bounds lib))
  end.

(** [daily_returns]: the daily sums of [pnl] over [start_cash]. *)
Definition daily_returns (df : DataFrame) (start_cash : float) : list (Z * float) :=
  let dates := default [] (exit_date df) in
  let daily_pnl := groupby_sum dates (pnl <$> rows df) in
  (fun kv => (fst kv, PrimFloat.div (snd kv) start_cash)) <$> daily_pnl.

(** Lines 228 to 236: the date range of the daily returns, the reindexing on
    it and the filling. *)
Definition daily_returns_complete (df : DataFrame) (start_cash : float)
  : result (list (Z * float)) :=
  let daily_returns := daily_returns df start_cash in
  let start_date := index_min (fst <$> daily_returns) in
  let end_date := index_max (fst <$> daily_returns) in
  match date_range start_date end_date with
  | Raises e => Raises e
  | Returns full_date_range =>
      let daily_returns_reindexed := reindex daily_returns full_date_range in
      Returns (fillna daily_returns_reindexed)
  end.

(** [compute_sharpe_metrics(df, start_cash, risk_free_rate)]: the frame as
    the call leaves it, and the result. *)
Definition compute_sharpe_metrics (df : DataFrame) (start_cash : float)
    (risk_free_rate : float) : DataFrame * result metrics :=
  let df := with_exit_date df in
  match daily_returns_complete df start_cash with
  | Raises e => (df, Raises e)
  | Returns daily_returns_complete =>
      let daily_returns_series := snd <$> daily_returns_complete in
      let daily_vol := std daily_returns_series in
      let annual_vol := PrimFloat.mul daily_vol (PrimFloat.sqrt 252) in
      let daily_rf := PrimFloat.div risk_free_rate 252 in
      let daily_sharpe :=
        PrimFloat.div (PrimFloat.sub (mean daily_returns_series) daily_rf)
          daily_vol in
      let annual_sharpe := PrimFloat.mul daily_sharpe (PrimFloat.sqrt 252) in
      let mean_daily_return := mean daily_returns_series in
      (df, Returns (daily_returns_complete, annual_vol, annual_sharpe,
                    mean_daily_return))
  end.

(** *** What the properties speak of *)

(** The arithmetic mean of a series. *)
Definition arith_mean (xs : list float) : float :=
  PrimFloat.div (array_sum lib xs) (of_nat (length xs)).

(** The sample standard deviation of a series: the square root of the sum of
    the squared deviations from the mean over [N - 1]. *)
Definition sample_std (xs : list float) : float :=
  let m := arith_mean xs in
  PrimFloat.sqrt
    (PrimFloat.div
       (array_sum lib
          ((fun x => let d := PrimFloat.sub m x in PrimFloat.mul d d) <$> xs))
       (of_nat (length xs - 1))).

End Calls.

(** The exit dates of the ledger, row by row. *)
Definition exit_dates (df : DataFrame) : list Z :=
  (fun r => date_of (exit_time r)) <$> rows df.

(** The trade of the row [r] was closed on the day [d]: its exit time is one
    of the 86400 seconds of that day. *)
Definition closed_on (d : Z) (r : row) : bool :=
  (d * 86400 <=? exit_time r)%Z && (exit_time r <? (d + 1) * 86400)%Z.

(** The realized profit and loss of each trade closed on the day [d], in the
    order of the ledger. *)
Definition pnl_closed_on (d : Z) (df : DataFrame) : list float :=
  pnl <$> List.filter (closed_on d) (rows df).

(** The value of the filled series on the day [d]. *)
Definition filled (lib : library) (df : DataFrame) (start_cash : float)
    (d : Z) : float :=
  if decide (d ∈ exit_dates df)
  then fillna0 (PrimFloat.div (group_sum lib (pnl_closed_on d df)) start_cash)
  else 0%float.

(** A daily volatility on which the Sharpe ratio is not defined: zero, or not
    a number (the standard deviation of a single day). *)
Definition degenerate (daily_vol : float) : bool :=
  PrimFloat.is_nan daily_vol || PrimFloat.eqb daily_vol 0%float.

(** *** Sample data *)

(** A sum from [0.0], left to right: what the sums of the library give on
    the few values of the sample ledgers. *)
Definition short_sum (xs : list float) : float :=
  fold_left PrimFloat.add xs 0%float.

(** The library on the sample ledgers, in a version that has a [ValueError]
    for a date range without bounds and in one that has an
    [AttributeError]. *)
Definition sample_library : library :=
  {| group_sum := short_sum; array_sum := short_sum;
     no_bounds := BoundsValueError |}.

Definition newer_sample_library : library :=
  {| group_sum := short_sum; array_sum := short_sum;
     no_bounds := BoundsAttributeError |}.

(** A ledger as the strategy hands it over: no column [exit_date] yet. *)
Definition ledger_of (rs : list row) : DataFrame :=
  {| rows := rs; exit_date := None; others := [] |}.

(** The example of the specification: +100 and -40 on two consecutive days. *)
Definition two_trades : DataFrame :=
  ledger_of [ {| exit_time := 100; pnl := 100 |};
              {| exit_time := 86405; pnl := (-40)%float |} ].

(** Trades on day 0 and on day 3, two of them on day 3: one early in the
    day, one late. *)
Definition gap_ledger : DataFrame :=
  ledger_of [ {| exit_time := 100; pnl := 100 |};
              {| exit_time := 259205; pnl := (-40)%float |};
              {| exit_time := 339200; pnl := 20 |} ].

Definition single_trade : DataFrame :=
  ledger_of [ {| exit_time := 100; pnl := 100 |} ].

(** One trade without profit or loss; used with a starting capital of zero. *)
Definition flat_trade : DataFrame :=
  ledger_of [ {| exit_time := 100; pnl := 0 |} ].

(** A gain and a loss without bound on the same day. *)
Definition unbounded_trades : DataFrame :=
  ledger_of [ {| exit_time := 100; pnl := PrimFloat.infinity |};
              {| exit_time := 200; pnl := PrimFloat.neg_infinity |} ].

Definition empty_ledger : DataFrame := ledger_of [].

End DataUtils.

Module StrategiesSpec.
Import Strategies.

Section Properties.

Variable value_eq : position -> position -> bool.
Variable p : params.

Lemma filter_all {A} (P : A -> Prop) `{forall x, Decision (P x)} (l : list A) :
  (forall x, x ∈ l -> P x) -> filter P l = l.
Proof.
  induction l as [|a l IH]; intros Hl; [done|].
  rewrite filter_cons_True by (apply Hl; left).
  f_equal. apply IH. intros x Hx. apply Hl. by right.
Qed.

Lemma filter_ext_elem {A} (P Q : A -> Prop)
    `{forall x, Decision (P x)} `{forall x, Decision (Q x)} (l : list A) :
  (forall x, x ∈ l -> P x <-> Q x) -> filter P l = filter Q l.
Proof.
  induction l as [|a l IH]; intros Hl; [done|].
  rewrite !filter_cons, IH by (intros x Hx; apply Hl; by right).
  apply decide_ext, Hl. left.
Qed.

Lemma list_remove_first {A} `{EqDecision A} (same : A -> bool) (x : A) (l : list A) :
  NoDup l -> x ∈ l -> same x = true ->
  (forall y, y ∈ l -> y <> x -> same y = false) ->
  list_remove same l = Some (filter (fun y => y <> x) l).
Proof.
  induction l as [|a l IH]; intros Hnd Hin Hx Hy.
  - by apply elem_of_nil in Hin.
  - apply NoDup_cons in Hnd as [Ha Hnd]. simpl.
    destruct (decide (a = x)) as [->|Hne].
    + rewrite Hx. rewrite filter_cons_False by (intros H'; by apply H').
      f_equal. symmetry. apply filter_all. intros y Hin' ->. done.
    + apply elem_of_cons in Hin as [?|Hin]; [congruence|].
      rewrite (Hy a) by (try apply elem_of_cons; auto).
      rewrite IH; try done.
      * simpl. by rewrite filter_cons_True.
      * intros y ? ?. apply Hy; [apply elem_of_cons|]; auto.
Qed.
Lemma issue_issue s os os' : issue (issue s os) os' = issue s (os ++ os').
Proof. unfold issue. simpl. by rewrite <- app_assoc. Qed.

Lemma issue_nil s : issue s [] = s.
Proof. destruct s. unfold issue. simpl. by rewrite app_nil_r. Qed.

(** One step of the scan: the position is queued exactly when its exit
    condition holds, with the order issued for it. *)
Lemma scan_pos_spec b r acc s q :
  objects s !! r = Some q ->
  exists os,
    scan_pos p b r acc s
    = Ok (acc ++ ((fun o => (r, o)) <$> os)) (issue s os) /\
    length os = (if exit_signal p b q then 1 else 0).
Proof.
  intros Hq. unfold scan_pos, bind, deref, exit_signal. rewrite Hq.
  destruct (type q); simpl.
  - destruct (gtb (rsi b) (exit_buy_rsi p)); simpl.
    + exists [Sell (length (broker s))]. done.
    + exists []. simpl. by rewrite app_nil_r, issue_nil.
  - destruct (PrimFloat.ltb (rsi b) (exit_sell_rsi p)); simpl.
    + exists [Buy (length (broker s))]. done.
    + exists []. simpl. by rewrite app_nil_r, issue_nil.
Qed.

(** The scan queues the positions whose exit condition holds, in the order of
    the list, and changes nothing but the broker's orders. *)
Lemma scan_spec b l : forall acc s,
  Forall (fun r => is_Some (objects s !! r)) l ->
  exists todo,
    scan p b l acc s = Ok (acc ++ todo) (issue s todo.*2) /\
    todo.*1 = filter (fun r => due p (objects s) b r = true) l.
Proof.
  induction l as [|r l IH]; intros acc s Hl.
  - exists []. simpl. by rewrite app_nil_r, issue_nil.
  - apply Forall_cons in Hl as [[q Hq] Hl].
    destruct (scan_pos_spec b r acc s q Hq) as (os & Hs & Hlen).
    destruct (IH (acc ++ ((fun o => (r, o)) <$> os)) (issue s os) Hl)
      as (todo & Ht & Hf).
    exists (((fun o => (r, o)) <$> os) ++ todo).
    simpl. unfold bind at 1. rewrite Hs, Ht. split.
    + rewrite issue_issue, <- app_assoc. do 2 f_equal.
      rewrite fmap_app. f_equal. rewrite <- list_fmap_compose.
      clear. induction os as [|o os IHos]; [done|].
      rewrite fmap_cons. simpl. by rewrite <- IHos.
    + rewrite fmap_app, Hf. simpl.
      rewrite filter_cons.
      assert (due p (objects s) b r = exit_signal p b q) as ->
        by (unfold due; by rewrite Hq).
      destruct (exit_signal p b q).
      * destruct os as [|o [|]]; try done.
      * destruct os; try done.
Qed.

(** The test of [remove] singles out the position just marked: every other
    open position still lacks the exit keys. *)
Lemma item_eq_marked b o objs r y q :
  objs !! r = Some q ->
  y <> r -> unclosed objs y = true ->
  item_eq value_eq (alter (mark b o) r objs) r y = false.
Proof.
  intros Hq Hne Hy. unfold item_eq.
  rewrite (proj2 (Nat.eqb_neq y r)) by done. simpl.
  rewrite list_lookup_alter_ne by done.
  rewrite list_lookup_alter, decide_True by done. rewrite Hq. simpl.
  unfold unclosed in Hy. destruct (objs !! y) as [a|]; [|done].
  unfold dict_eq. simpl. by destruct (exit a).
Qed.

Lemma unclosed_alter_ne f objs r y :
  y <> r -> unclosed (alter f r objs) y = unclosed objs y.
Proof. intros. unfold unclosed. by rewrite list_lookup_alter_ne. Qed.

(** The closing loop over a queue of distinct open positions: each is marked,
    appended to the closed list and taken out of the open list; no [remove]
    fails. *)
Lemma close_all_spec b todo : forall s,
  NoDup (open_positions s) ->
  Forall (fun r => unclosed (objects s) r = true) (open_positions s) ->
  NoDup todo.*1 ->
  (forall r, r ∈ todo.*1 -> r ∈ open_positions s) ->
  close_all value_eq b todo s
  = Ok tt {| objects := marked b todo (objects s);
             open_positions := filter (fun r => r ∉ todo.*1) (open_positions s);
             closed_positions := closed_positions s ++ todo.*1;
             broker := broker s |}.
Proof.
  induction todo as [|[r o] todo IH]; intros s Hnd Hun Hq Hsub.
  - destruct s as [objs ops cls br]. simpl. unfold ret. f_equal. f_equal.
    + symmetry. apply filter_all. intros x _. apply not_elem_of_nil.
    + by rewrite app_nil_r.
  - simpl in Hq. apply NoDup_cons in Hq as [Hr Hq].
    assert (r ∈ open_positions s) as Hin by (apply Hsub; left).
    rewrite Forall_forall in Hun.
    assert (exists q, objects s !! r = Some q) as [q Hobj].
    { specialize (Hun r Hin). unfold unclosed in Hun.
      destruct (objects s !! r); [eauto|done]. }
    simpl. unfold bind at 1. unfold close_pos, bind, set_exit, append_closed,
      remove_open. simpl. rewrite Hobj.
    rewrite (list_remove_first _ r); try done.
    + rewrite IH; simpl.
      * unfold marked. simpl. f_equal. f_equal.
        -- rewrite list_filter_filter. apply list_filter_iff.
           intros x. rewrite not_elem_of_cons. tauto.
        -- by rewrite <- app_assoc.
      * by apply NoDup_filter.
      * apply Forall_forall. intros y Hy.
        apply list_elem_of_filter in Hy as [Hne Hy].
        rewrite unclosed_alter_ne by done. by apply Hun.
      * done.
      * intros y Hy. apply list_elem_of_filter. split.
        -- intros ->. done.
        -- apply Hsub. by right.
    + unfold item_eq. by rewrite Nat.eqb_refl.
    + intros y Hy Hne. eapply item_eq_marked; eauto.
Qed.

(** The entries never fail: they append the new positions to the store and
    their references to the open list, and issue one order each. *)
Lemma entries_spec b s : entries p b s = Ok tt (after_entries p b s).
Proof.
  destruct s as [objs ops cls br].
  unfold after_entries, entries, entered, bind, buy, sell, append_open, ret.
  simpl.
  destruct (PrimFloat.ltb (rsi b) (buy_rsi p)),
    (gtb (rsi b) (sell_rsi p)); simpl;
    rewrite ?length_app, ?app_nil_r, <- ?app_assoc; simpl;
    rewrite ?Nat.add_1_r; reflexivity.
Qed.

Lemma unclosed_lookup objs r :
  unclosed objs r = true -> is_Some (objs !! r).
Proof. unfold unclosed. destruct (objs !! r); [eauto|done]. Qed.

Lemma unclosed_app_l objs news r :
  unclosed objs r = true -> unclosed (objs ++ news) r = true.
Proof.
  intros Hr. pose proof (unclosed_lookup _ _ Hr) as Hs.
  apply lookup_lt_is_Some in Hs.
  unfold unclosed in *. by rewrite lookup_app_l.
Qed.

Lemma entered_unclosed b n : Forall (fun q => exit q = None) (entered p b n).
Proof.
  unfold entered.
  destruct (PrimFloat.ltb _ _), (gtb _ _); simpl; repeat constructor.
Qed.

(** The entries keep the invariant. *)
Lemma entries_wf b s s1 : wf s -> entries p b s = Ok tt s1 -> wf s1.
Proof.
  intros [Hnd Hun]. rewrite entries_spec. intros [= <-].
  pose proof (entered_unclosed b (length (broker s))) as Hnew.
  unfold after_entries.
  rewrite Forall_forall in Hun.
  split; simpl.
  - apply NoDup_app. split; [done|]. split; [|apply NoDup_seq].
    intros r Hr Hr'. apply elem_of_seq in Hr'.
    apply Hun, unclosed_lookup, lookup_lt_is_Some in Hr. lia.
  - apply Forall_app. split; apply Forall_forall.
    + intros r Hr. by apply unclosed_app_l, Hun.
    + intros r Hr. apply elem_of_seq in Hr. unfold unclosed.
      destruct (lookup_lt_is_Some_2 (entered p b (length (broker s)))
                  (r - length (objects s))) as [q Hq]; [lia|].
      rewrite lookup_app_r, Hq by lia.
      rewrite Forall_lookup in Hnew. by rewrite (Hnew _ _ Hq).
Qed.

(** The exits on a state that satisfies the invariant: the positions due are
    queued in the order of the open list, marked, moved to the closed list;
    one order is issued for each. *)
Lemma exits_spec b s :
  wf s ->
  exists todo,
    todo.*1 = filter (fun r => due p (objects s) b r = true) (open_positions s) /\
    exits value_eq p b s
    = Ok tt {| objects := marked b todo (objects s);
               open_positions :=
                 filter (fun r => due p (objects s) b r <> true) (open_positions s);
               closed_positions := closed_positions s ++ todo.*1;
               broker := broker s ++ todo.*2 |}.
Proof.
  intros [Hnd Hun].
  destruct (scan_spec b (open_positions s) [] s) as (todo & Hscan & Hf).
  { eapply Forall_impl; [exact Hun|]. intros r. apply unclosed_lookup. }
  exists todo. split; [done|].
  unfold exits, bind. rewrite Hscan. simpl.
  rewrite close_all_spec; simpl; try done.
  - f_equal. f_equal. rewrite Hf.
    apply filter_ext_elem. intros r Hr. rewrite list_elem_of_filter. tauto.
  - rewrite Hf. by apply NoDup_filter.
  - intros r. rewrite Hf, list_elem_of_filter. tauto.
Qed.

(** A dict that is not queued is not touched by the closing loop. *)
Lemma marked_lookup_ne b todo r : forall objs,
  r ∉ todo.*1 -> marked b todo objs !! r = objs !! r.
Proof.
  induction todo as [|[r' o'] todo IH]; intros objs Hr; [done|].
  simpl in Hr. apply not_elem_of_cons in Hr as [Hne Hr].
  unfold marked in *. simpl. rewrite IH by done.
  by apply list_lookup_alter_ne.
Qed.

(** A queued dict receives its exit keys once, from the bar and its order. *)
Lemma marked_lookup b todo r o : forall objs,
  NoDup todo.*1 -> (r, o) ∈ todo ->
  marked b todo objs !! r = mark b o <$> objs !! r.
Proof.
  induction todo as [|[r' o'] todo IH]; intros objs Hnd Hin.
  - by apply elem_of_nil in Hin.
  - simpl in Hnd. apply NoDup_cons in Hnd as [Hr' Hnd].
    apply elem_of_cons in Hin as [[= -> ->]|Hin].
    + change (marked b ((r', o') :: todo) objs)
        with (marked b todo (alter (mark b o') r' objs)).
      rewrite marked_lookup_ne by done.
      by rewrite list_lookup_alter, decide_True.
    + assert (r <> r') as Hne.
      { intros ->. apply Hr'. apply list_elem_of_fmap. by exists (r', o). }
      change (marked b ((r', o') :: todo) objs)
        with (marked b todo (alter (mark b o') r' objs)).
      rewrite IH by done. by rewrite list_lookup_alter_ne.
Qed.

(** The exits keep the invariant. *)
Lemma exits_wf b s s' : wf s -> exits value_eq p b s = Ok tt s' -> wf s'.
Proof.
  intros Hwf. destruct (exits_spec b s Hwf) as (todo & Hf & ->).
  intros [= <-]. destruct Hwf as [Hnd Hun]. split; simpl.
  - by apply NoDup_filter.
  - rewrite Forall_forall in Hun. apply Forall_forall. intros r Hr.
    apply list_elem_of_filter in Hr as [Hd Hr].
    unfold unclosed. rewrite marked_lookup_ne; [by apply Hun|].
    rewrite Hf, list_elem_of_filter. tauto.
Qed.

Lemma next_unfold b s :
  next value_eq p b s = exits value_eq p b (after_entries p b s).
Proof. unfold next, bind. by rewrite entries_spec. Qed.

Lemma after_entries_wf b s : wf s -> wf (after_entries p b s).
Proof. intros Hwf. eapply entries_wf; [exact Hwf|apply entries_spec]. Qed.

(** [next] never raises on a state that satisfies the invariant, and keeps
    it. *)
Lemma next_total b s :
  wf s -> exists s', next value_eq p b s = Ok tt s' /\ wf s'.
Proof.
  intros Hwf. apply (after_entries_wf b) in Hwf.
  destruct (exits_spec b _ Hwf) as (todo & Hf & He).
  rewrite next_unfold. eexists. split; [exact He|].
  eapply exits_wf; [exact Hwf|exact He].
Qed.

Lemma init_wf : wf init.
Proof. split; constructor. Qed.

Lemma run_total_from bs : forall s,
  wf s -> exists s', run value_eq p bs s = Ok tt s' /\ wf s'.
Proof.
  induction bs as [|b bs IH]; intros s Hwf.
  - exists s. done.
  - destruct (next_total b s Hwf) as (s1 & Hn & Hwf1).
    destruct (IH s1 Hwf1) as (s' & Hr & Hwf').
    exists s'. simpl. unfold bind. by rewrite Hn.
Qed.

Lemma entered_long b n :
  PrimFloat.ltb (rsi b) (buy_rsi p) = true ->
  entered p b n !! 0 = Some (new_position long b (Buy n)).
Proof. intros H. unfold entered. by rewrite H. Qed.

Lemma entered_short b n :
  gtb (rsi b) (sell_rsi p) = true ->
  entered p b n !! (if PrimFloat.ltb (rsi b) (buy_rsi p) then 1 else 0)
  = Some (new_position short b
            (Sell (if PrimFloat.ltb (rsi b) (buy_rsi p) then S n else n))).
Proof.
  intros H. unfold entered. rewrite H.
  by destruct (PrimFloat.ltb (rsi b) (buy_rsi p)).
Qed.

(** A position created by the entries is in the store and in the open list
    when the exit scan starts. *)
Lemma after_entries_new b s i q :
  entered p b (length (broker s)) !! i = Some q ->
  objects (after_entries p b s) !! (length (objects s) + i) = Some q /\
  length (objects s) + i ∈ open_positions (after_entries p b s).
Proof.
  intros Hq. unfold after_entries. simpl. split.
  - rewrite lookup_app_r by lia. by replace (_ + i - _) with i by lia.
  - apply elem_of_app. right. apply elem_of_seq.
    apply lookup_lt_Some in Hq. lia.
Qed.

(** A scan in which no position is due issues no order and queues nothing. *)
Lemma scan_quiet b l : forall acc s,
  Forall (fun r => unclosed (objects s) r = true) l ->
  Forall (fun r => due p (objects s) b r = false) l ->
  scan p b l acc s = Ok acc s.
Proof.
  induction l as [|r l IH]; intros acc s Hun Hd; [done|].
  apply Forall_cons in Hun as [Hr Hun]. apply Forall_cons in Hd as [Hdr Hd].
  apply unclosed_lookup in Hr as [q Hq].
  simpl. unfold bind at 1.
  assert (scan_pos p b r acc s = Ok acc s) as ->; [|by apply IH].
  unfold due in Hdr. rewrite Hq in Hdr. unfold exit_signal in Hdr.
  apply orb_false_iff in Hdr as [H1 H2].
  unfold scan_pos, bind, deref. rewrite Hq, H1, H2. done.
Qed.

(** ** The properties of [next] *)

(** C1.  On every bar the entries run first and the exit scan then covers the
    whole open list, the positions just opened included: the positions
    appended to the closed list by the call are exactly the open positions
    after the entries whose exit condition holds for the bar's indicator
    value, and exactly the others stay open.  So a long opened on a bar whose
    indicator value is below [buy_rsi] and above [exit_buy_rsi] is closed by
    the same call, and likewise a short when the value is above [sell_rsi] and
    below [exit_sell_rsi]. *)
Theorem same_bar_open_and_close (s : strategy) (b : bar) :
  wf s ->
  exists s1 s',
    entries p b s = Ok tt s1 /\
    exits value_eq p b s1 = Ok tt s' /\
    next value_eq p b s = Ok tt s' /\
    newly_closed (length (closed_positions s)) s'
    = filter (fun r => due p (objects s1) b r = true) (open_positions s1) /\
    open_positions s'
    = filter (fun r => due p (objects s1) b r <> true) (open_positions s1) /\
    (PrimFloat.ltb (rsi b) (buy_rsi p) = true ->
     gtb (rsi b) (exit_buy_rsi p) = true ->
     let r := length (objects s) in
     objects s1 !! r = Some (new_position long b (Buy (length (broker s)))) /\
     r ∈ open_positions s1 /\
     r ∈ newly_closed (length (closed_positions s)) s' /\
     r ∉ open_positions s') /\
    (gtb (rsi b) (sell_rsi p) = true ->
     PrimFloat.ltb (rsi b) (exit_sell_rsi p) = true ->
     exists r o,
       objects s1 !! r = Some (new_position short b o) /\
       length (objects s) <= r /\
       r ∈ open_positions s1 /\
       r ∈ newly_closed (length (closed_positions s)) s' /\
       r ∉ open_positions s').
Proof.
  intros Hwf. pose proof (after_entries_wf b s Hwf) as Hwf1.
  destruct (exits_spec b _ Hwf1) as (todo & Hf & He).
  eexists _, _. split; [apply entries_spec|]. split; [exact He|].
  split; [by rewrite next_unfold|].
  assert (newly_closed (length (closed_positions s))
            {| objects := marked b todo (objects (after_entries p b s));
               open_positions :=
                 filter (fun r => due p (objects (after_entries p b s)) b r <> true)
                   (open_positions (after_entries p b s));
               closed_positions :=
                 closed_positions (after_entries p b s) ++ todo.*1;
               broker := broker (after_entries p b s) ++ todo.*2 |}
          = filter (fun r => due p (objects (after_entries p b s)) b r = true)
              (open_positions (after_entries p b s))) as Hnew.
  { unfold newly_closed. simpl. by rewrite drop_app_length. }
  split; [exact Hnew|]. split; [done|]. rewrite Hnew. simpl. split.
  - intros Hlt Hgt.
    destruct (after_entries_new b s 0 _ (entered_long b _ Hlt)) as [Hq Hin].
    rewrite Nat.add_0_r in Hq, Hin.
    assert (due p (objects (after_entries p b s)) b (length (objects s)) = true)
      as Hdue by (unfold due; rewrite Hq; unfold exit_signal; simpl; by rewrite Hgt).
    split; [done|]. split; [done|].
    rewrite !list_elem_of_filter. split; [done|]. tauto.
  - intros Hgt Hlt.
    destruct (after_entries_new b s _ _ (entered_short b _ Hgt)) as [Hq Hin].
    eexists _, _. split; [exact Hq|]. split; [lia|]. split; [done|].
    assert (due p (objects (after_entries p b s)) b
              (length (objects s)
               + (if PrimFloat.ltb (rsi b) (buy_rsi p) then 1 else 0)) = true)
      as Hdue by (unfold due; rewrite Hq; unfold exit_signal; simpl; by rewrite Hlt).
    rewrite !list_elem_of_filter. split; [done|]. tauto.
Qed.

(** C2.  Every position that a call of [next] closes carries the closing
    bar's close price as exit price, its timestamp as exit time, and as
    realized profit and loss exit price minus entry price when it is long,
    entry price minus exit price when it is short; its side and entry price
    are those it was opened with. *)
Theorem closing_pnl (s : strategy) (b : bar) :
  wf s ->
  exists s',
    next value_eq p b s = Ok tt s' /\
    forall r, r ∈ newly_closed (length (closed_positions s)) s' ->
      exists q0 q x,
        objects (after_entries p b s) !! r = Some q0 /\
        objects s' !! r = Some q /\
        type q = type q0 /\ entry_price q = entry_price q0 /\
        exit q = Some x /\
        exit_price x = close b /\
        exit_time x = datetime b /\
        exit_rsi x = rsi b /\
        pnl x = match type q with
                | long => PrimFloat.sub (exit_price x) (entry_price q)
                | short => PrimFloat.sub (entry_price q) (exit_price x)
                end.
Proof.
  intros Hwf. pose proof (after_entries_wf b s Hwf) as Hwf1.
  destruct (exits_spec b _ Hwf1) as (todo & Hf & He).
  eexists. split; [by rewrite next_unfold|].
  intros r Hr. unfold newly_closed in Hr. simpl in Hr.
  rewrite drop_app_length in Hr.
  assert (NoDup todo.*1) as Hnd
    by (rewrite Hf; apply NoDup_filter, Hwf1).
  assert (r ∈ open_positions (after_entries p b s)) as Hopen
    by (rewrite Hf in Hr; by apply list_elem_of_filter in Hr as [_ ?]).
  apply list_elem_of_fmap in Hr as ([r' o] & -> & Hro).
  change ((r', o).1) with r' in *.
  destruct Hwf1 as [_ Hun]. rewrite Forall_forall in Hun.
  destruct (unclosed_lookup _ _ (Hun _ Hopen)) as [q0 Hq0].
  eexists q0, (mark b o q0), _. split; [done|]. split.
  { cbn [objects]. rewrite (marked_lookup b todo r' o) by done.
    by rewrite Hq0. }
  simpl. repeat (split; [reflexivity|]). by destruct (type q0).
Qed.

(** C3.  On every bar, whatever positions are open, the entries open exactly
    one new long position when the indicator value is strictly below
    [buy_rsi] and none otherwise, and exactly one new short position when it
    is strictly above [sell_rsi] and none otherwise.  The new position has the
    bar's close as entry price, its indicator value as entry RSI, its
    timestamp as entry time, no exit keys, and the order that the broker has
    just issued (a buy for a long, a sell for a short).  The two tests are
    independent, and the new positions join the open list before the exit
    scan of the same call. *)
Theorem entries_pyramid (s : strategy) (b : bar) :
  exists s1,
    entries p b s = Ok tt s1 /\
    next value_eq p b s = exits value_eq p b s1 /\
    objects s1 = objects s ++ created (length (objects s)) s1 /\
    open_positions s1
    = open_positions s
      ++ seq (length (objects s)) (length (created (length (objects s)) s1)) /\
    closed_positions s1 = closed_positions s /\
    broker s1 = broker s ++ (order_ref <$> created (length (objects s)) s1) /\
    (if PrimFloat.ltb (rsi b) (buy_rsi p)
     then exists q,
            List.filter is_long (created (length (objects s)) s1) = [q] /\
            type q = long /\
            entry_price q = close b /\
            entry_rsi q = rsi b /\
            entry_time q = datetime b /\
            exit q = None /\
            order_ref q = Buy (length (broker s))
     else List.filter is_long (created (length (objects s)) s1) = []) /\
    (if gtb (rsi b) (sell_rsi p)
     then exists q,
            List.filter is_short (created (length (objects s)) s1) = [q] /\
            type q = short /\
            entry_price q = close b /\
            entry_rsi q = rsi b /\
            entry_time q = datetime b /\
            exit q = None /\
            order_ref q
            = Sell (if PrimFloat.ltb (rsi b) (buy_rsi p)
                    then S (length (broker s)) else length (broker s))
     else List.filter is_short (created (length (objects s)) s1) = []).
Proof.
  exists (after_entries p b s). split; [apply entries_spec|].
  split; [apply next_unfold|].
  unfold created, after_entries. simpl. rewrite drop_app_length.
  repeat (split; [reflexivity|]). unfold entered.
  destruct (PrimFloat.ltb (rsi b) (buy_rsi p)),
    (gtb (rsi b) (sell_rsi p)); simpl; split;
    try reflexivity; eexists; repeat split.
Qed.

(** C7, as the code has it.  [next] does not validate the bar: whatever the
    prices and timestamps of the bars, finite or not, ordered or not, the
    replay of a bar sequence processes every bar with the same rules and
    raises nothing. *)
Theorem replay_never_raises (bs : list bar) :
  exists s', run value_eq p bs init = Ok tt s' /\ wf s'.
Proof. apply run_total_from, init_wf. Qed.

(** C10.  A bar whose indicator value triggers no entry and is the exit
    condition of no open position changes nothing: the strategy object after
    the call is the one before it, so the open list and the closed list are
    the same and nothing was closed. *)
Theorem quiet_bar (s : strategy) (b : bar) :
  wf s ->
  PrimFloat.ltb (rsi b) (buy_rsi p) = false ->
  gtb (rsi b) (sell_rsi p) = false ->
  Forall (fun r => due p (objects s) b r = false) (open_positions s) ->
  next value_eq p b s = Ok tt s /\
  newly_closed (length (closed_positions s)) s = [].
Proof.
  intros [_ Hun] Hlt Hgt Hd. split.
  - unfold next, entries, exits, bind. rewrite Hlt, Hgt. simpl.
    by rewrite scan_quiet.
  - unfold newly_closed. apply drop_all.
Qed.

End Properties.

(** ** The properties on sample runs *)

(** A closed decidable fact, by evaluation of its decision procedure. *)
Ltac by_decision P :=
  apply (bool_decide_unpack P); vm_compute; exact I.

(** With overlapping thresholds, the long opened on a bar at 50 is closed by
    the same call, whatever was open before. *)
Lemma same_bar_open_and_close_sample :
  wf two_longs /\
  exists s',
    next always_equal overlapping (bar_at 180 105 50) two_longs
    = Ok tt s' /\
    2 ∈ newly_closed 0 s' /\ 2 ∉ open_positions s'.
Proof.
  assert (wf two_longs) as Hwf
    by by_decision (wf two_longs).
  split; [exact Hwf|].
  destruct (same_bar_open_and_close always_equal overlapping
              two_longs (bar_at 180 105 50) Hwf)
    as (s1 & s' & _ & _ & Hnext & _ & _ & Hlong & _).
  destruct (Hlong eq_refl eq_refl) as (_ & _ & Hc & Ho).
  exists s'. split; [exact Hnext|]. split; [exact Hc|exact Ho].
Defined.

(** A bar at 80 closes the two longs, each with the bar's close as exit price
    and exit less entry as profit and loss. *)
Lemma closing_pnl_sample :
  wf two_longs /\
  exists s',
    next always_equal default_params (bar_at 180 110 80) two_longs
    = Ok tt s' /\
    forall r, r ∈ newly_closed 0 s' ->
      exists q x,
        objects s' !! r = Some q /\ exit q = Some x /\
        exit_price x = 110%float /\ exit_time x = 180%Z /\
        pnl x = match type q with
                | long => PrimFloat.sub (exit_price x) (entry_price q)
                | short => PrimFloat.sub (entry_price q) (exit_price x)
                end.
Proof.
  assert (wf two_longs) as Hwf
    by by_decision (wf two_longs).
  split; [exact Hwf|].
  destruct (closing_pnl always_equal default_params
              two_longs (bar_at 180 110 80) Hwf)
    as (s' & Hnext & Hall).
  exists s'. split; [exact Hnext|]. intros r Hr.
  destruct (Hall r Hr) as (q0 & q & x & _ & Hq & _ & _ & Hx & Hp & Ht & _ & Hpnl).
  exists q, x. repeat split; assumption.
Defined.

(** A bar at 50 with the default thresholds leaves the strategy as it was. *)
Lemma quiet_bar_sample :
  wf two_longs /\
  next always_equal default_params (bar_at 180 105 50) two_longs
  = Ok tt two_longs.
Proof.
  assert (wf two_longs) as Hwf
    by by_decision (wf two_longs).
  split; [exact Hwf|].
  apply (quiet_bar always_equal default_params two_longs
           (bar_at 180 105 50) Hwf eq_refl eq_refl).
  by_decision
    (Forall (fun r => due default_params (objects two_longs)
                        (bar_at 180 105 50) r = false)
       (open_positions two_longs)).
Defined.

(** With two longs open, a bar at 20 that closes at 95 opens a third long and
    nothing else: entry price 95, entry RSI 20, entry time 180, third order
    of the broker. *)
Lemma entries_pyramid_sample :
  exists s1 q,
    entries default_params (bar_at 180 95 20) two_longs = Ok tt s1 /\
    objects s1 = objects two_longs ++ [q] /\
    open_positions s1 = [0; 1; 2] /\
    type q = long /\ entry_price q = 95%float /\ entry_rsi q = 20%float /\
    entry_time q = 180%Z /\ exit q = None /\ order_ref q = Buy 2.
Proof.
  destruct (entries_pyramid always_equal default_params two_longs
              (bar_at 180 95 20))
    as (s1 & He & _ & Hobjs & Hopen & _ & _ & Hlong & Hshort).
  change (PrimFloat.ltb (rsi (bar_at 180 95 20)) (buy_rsi default_params))
    with true in Hlong.
  change (gtb (rsi (bar_at 180 95 20)) (sell_rsi default_params))
    with false in Hshort.
  destruct Hlong as (q & Hq & Hty & Hprice & Hrsi & Htime & Hexit & Horder).
  assert (created (length (objects two_longs)) s1 = [q]) as Hc.
  { destruct (created (length (objects two_longs)) s1) as [|x l]; [done|].
    simpl in Hq, Hshort. unfold is_long, is_short in *.
    destruct (type x) eqn:Hx; simpl in *; [|done].
    destruct l as [|y l]; [by inversion Hq|].
    simpl in Hq, Hshort. destruct (type y); simpl in *; [|done].
    inversion Hq. }
  rewrite Hc in Hobjs, Hopen.
  exists s1, q. repeat split; assumption.
Defined.

(** C7 as stated fails: a bar whose close is NaN and a bar that is older than
    the one before it are processed like any other; positions are opened at
    the NaN price and at the earlier time, and no [DataError] is raised. *)
Lemma malformed_bars_are_processed :
  run always_equal default_params
    [bar_at 100 PrimFloat.nan 20; bar_at 40 PrimFloat.infinity 25] init
  = Ok tt
      {| objects := [new_position long (bar_at 100 PrimFloat.nan 20) (Buy 0);
                     new_position long (bar_at 40 PrimFloat.infinity 25) (Buy 1)];
         open_positions := [0; 1];
         closed_positions := [];
         broker := [Buy 0; Buy 1] |} /\
  PrimFloat.is_finite (close (bar_at 100 PrimFloat.nan 20)) = false /\
  (datetime (bar_at 40 PrimFloat.infinity 25)
   < datetime (bar_at 100 PrimFloat.nan 20))%Z /\
  forall s',
    next always_equal default_params (bar_at 100 PrimFloat.nan 20) init
    <> Raise DataError s'.
Proof.
  split; [vm_compute; reflexivity|]. split; [vm_compute; reflexivity|].
  split; [reflexivity|]. intros s' H. vm_compute in H. discriminate H.
Qed.

End StrategiesSpec.

Module DataUtilsSpec.
Import DataUtils.

Lemma fold_min_le l : forall x, (fold_left Z.min l x <= x)%Z.
Proof. induction l as [|a l IH]; intros x; simpl; [lia|]. specialize (IH (Z.min x a)). lia. Qed.

Lemma fold_min_lower l : forall x y, y ∈ l -> (fold_left Z.min l x <= y)%Z.
Proof.
  induction l as [|a l IH]; intros x y Hy; [by apply elem_of_nil in Hy|].
  simpl. apply elem_of_cons in Hy as [->|Hy]; [|by apply IH].
  pose proof (fold_min_le l (Z.min x a)). lia.
Qed.

Lemma fold_min_elem l : forall x, fold_left Z.min l x = x \/ fold_left Z.min l x ∈ l.
Proof.
  induction l as [|a l IH]; intros x; simpl; [by left|].
  destruct (IH (Z.min x a)) as [H|H].
  - rewrite H. destruct (Z.min_spec x a) as [[_ ->]|[_ ->]]; [by left|right; left].
  - right. by right.
Qed.

(** [Index.min()] of a non-empty index is its least label. *)
Lemma index_min_spec l m :
  index_min l = Some m <-> m ∈ l /\ forall x, x ∈ l -> (m <= x)%Z.
Proof.
  destruct l as [|a l]; simpl.
  - split; [done|]. intros [H _]. by apply elem_of_nil in H.
  - split.
    + intros [= <-]. split.
      * destruct (fold_min_elem l a) as [->|H]; [left|by right].
      * intros x Hx. apply elem_of_cons in Hx as [->|Hx];
          [apply fold_min_le|by apply fold_min_lower].
    + intros [Hm Hle]. f_equal. apply Z.le_antisymm.
      * apply elem_of_cons in Hm as [->|Hm];
          [apply fold_min_le|by apply fold_min_lower].
      * apply Hle. destruct (fold_min_elem l a) as [->|H]; [left|by right].
Qed.

Lemma fold_max_ge l : forall x, (x <= fold_left Z.max l x)%Z.
Proof. induction l as [|a l IH]; intros x; simpl; [lia|]. specialize (IH (Z.max x a)). lia. Qed.

Lemma fold_max_upper l : forall x y, y ∈ l -> (y <= fold_left Z.max l x)%Z.
Proof.
  induction l as [|a l IH]; intros x y Hy; [by apply elem_of_nil in Hy|].
  simpl. apply elem_of_cons in Hy as [->|Hy]; [|by apply IH].
  pose proof (fold_max_ge l (Z.max x a)). lia.
Qed.

Lemma fold_max_elem l : forall x, fold_left Z.max l x = x \/ fold_left Z.max l x ∈ l.
Proof.
  induction l as [|a l IH]; intros x; simpl; [by left|].
  destruct (IH (Z.max x a)) as [H|H].
  - rewrite H. destruct (Z.max_spec x a) as [[_ ->]|[_ ->]]; [right; left|by left].
  - right. by right.
Qed.

(** [Index.max()] of a non-empty index is its greatest label. *)
Lemma index_max_spec l m :
  index_max l = Some m <-> m ∈ l /\ forall x, x ∈ l -> (x <= m)%Z.
Proof.
  destruct l as [|a l]; simpl.
  - split; [done|]. intros [H _]. by apply elem_of_nil in H.
  - split.
    + intros [= <-]. split.
      * destruct (fold_max_elem l a) as [->|H]; [left|by right].
      * intros x Hx. apply elem_of_cons in Hx as [->|Hx];
          [apply fold_max_ge|by apply fold_max_upper].
    + intros [Hm Hle]. f_equal. apply Z.le_antisymm.
      * apply Hle. destruct (fold_max_elem l a) as [->|H]; [left|by right].
      * apply elem_of_cons in Hm as [->|Hm];
          [apply fold_max_ge|by apply fold_max_upper].
Qed.

Lemma index_min_ext l1 l2 :
  (forall x, x ∈ l1 <-> x ∈ l2) -> index_min l1 = index_min l2.
Proof.
  intros Hl. destruct (index_min l1) as [m|] eqn:H1.
  - symmetry. apply index_min_spec. apply index_min_spec in H1 as [Hm Hle].
    split; [by apply Hl|]. intros x Hx. by apply Hle, Hl.
  - destruct l1; [|done]. destruct l2 as [|y l2]; [done|].
    exfalso. eapply elem_of_nil, Hl. left.
Qed.

Lemma index_max_ext l1 l2 :
  (forall x, x ∈ l1 <-> x ∈ l2) -> index_max l1 = index_max l2.
Proof.
  intros Hl. destruct (index_max l1) as [m|] eqn:H1.
  - symmetry. apply index_max_spec. apply index_max_spec in H1 as [Hm Hle].
    split; [by apply Hl|]. intros x Hx. by apply Hle, Hl.
  - destruct l1; [|done]. destruct l2 as [|y l2]; [done|].
    exfalso. eapply elem_of_nil, Hl. left.
Qed.

(** ** Dates and groups *)

(** The day number of a timestamp is the day whose seconds hold it. *)
Lemma date_of_closed_on r d :
  date_of (exit_time r) = d <-> closed_on d r = true.
Proof.
  unfold date_of, closed_on, seconds_per_day.
  rewrite andb_true_iff, Z.leb_le, Z.ltb_lt.
  pose proof (Z.div_mod (exit_time r) 86400 ltac:(lia)) as Hdm.
  pose proof (Z.mod_pos_bound (exit_time r) 86400 ltac:(lia)) as Hb.
  split; [intros <-; lia|]. intros [H1 H2].
  apply Z.le_antisymm.
  - apply Z.lt_succ_r. apply Z.div_lt_upper_bound; lia.
  - apply Z.div_le_lower_bound; lia.
Qed.

(** The group of the key [d] holds the PnL of the trades closed on [d]. *)
Lemma group_values_closed_on d df :
  group_values d (exit_dates df) (pnl <$> rows df) = pnl_closed_on d df.
Proof.
  unfold group_values, exit_dates, pnl_closed_on.
  induction (rows df) as [|r rs IH]; [done|].
  rewrite !fmap_cons. cbn [zip zip_with List.filter fst].
  destruct (closed_on d r) eqn:Hc.
  - apply date_of_closed_on in Hc. rewrite Hc, Z.eqb_refl.
    rewrite !fmap_cons. cbn [snd]. by rewrite <- IH.
  - destruct (Z.eqb_spec (date_of (exit_time r)) d) as [He|_]; [|exact IH].
    apply date_of_closed_on in He. congruence.
Qed.

(** A day is an exit date of the ledger when a trade was closed on it. *)
Lemma elem_of_exit_dates d df :
  d ∈ exit_dates df <-> pnl_closed_on d df <> [].
Proof.
  unfold exit_dates, pnl_closed_on. rewrite list_elem_of_fmap. split.
  - intros (r & -> & Hr) Hnil. apply fmap_nil_inv in Hnil.
    assert (r ∈ List.filter (closed_on (date_of (exit_time r))) (rows df)) as Hin.
    { apply list_elem_of_In, filter_In. split; [by apply list_elem_of_In|].
      by apply date_of_closed_on. }
    rewrite Hnil in Hin. by apply elem_of_nil in Hin.
  - intros Hne. destruct (List.filter (closed_on d) (rows df)) as [|r l] eqn:Hf;
      [done|].
    assert (In r (List.filter (closed_on d) (rows df))) as Hin
      by (rewrite Hf; left; done).
    apply filter_In in Hin as [Hin Hc]. exists r. split.
    + symmetry. by apply date_of_closed_on.
    + by apply list_elem_of_In.
Qed.

Lemma elem_of_group_keys keys d :
  d ∈ merge_sort Z.le (remove_dups keys) <-> d ∈ keys.
Proof. by rewrite merge_sort_Permutation, elem_of_remove_dups. Qed.

(** Looking a label up in a series computed label by label. *)
Lemma at_label_fmap (f : Z -> float) ks d :
  at_label d ((fun k => (k, f k)) <$> ks)
  = if decide (d ∈ ks) then Some (f d) else None.
Proof.
  induction ks as [|k ks IH]; [done|].
  rewrite fmap_cons. simpl. destruct (Z.eqb_spec k d) as [->|Hne].
  - rewrite decide_True; [done|left].
  - rewrite IH. apply decide_ext. rewrite elem_of_cons.
    split; [by right|]. intros [?|?]; [congruence|done].
Qed.

Section Calls.

Variable lib : library.

(** The labels of the grouped series are the distinct keys. *)
Lemma groupby_sum_keys keys vals :
  (groupby_sum lib keys vals).*1 = merge_sort Z.le (remove_dups keys).
Proof.
  unfold groupby_sum. rewrite <- list_fmap_compose.
  generalize (merge_sort Z.le (remove_dups keys)).
  intros l. induction l as [|a l IH]; [done|]. rewrite fmap_cons. simpl.
  by rewrite IH.
Qed.

(** The daily returns, label by label. *)
Lemma daily_returns_eq df start_cash :
  daily_returns lib (with_exit_date df) start_cash
  = (fun d => (d, PrimFloat.div (group_sum lib (pnl_closed_on d df)) start_cash))
      <$> merge_sort Z.le (remove_dups (exit_dates df)).
Proof.
  unfold daily_returns, groupby_sum. simpl.
  rewrite <- list_fmap_compose. apply list_fmap_ext. intros i d _. simpl.
  fold (exit_dates df). by rewrite group_values_closed_on.
Qed.

(** Lines 219 to 236 on a ledger that has a row: the series runs over every
    day from the first exit date to the last. *)
Lemma daily_returns_complete_spec df start_cash :
  rows df <> [] ->
  exists lo hi,
    index_min (exit_dates df) = Some lo /\
    index_max (exit_dates df) = Some hi /\
    daily_returns_complete lib (with_exit_date df) start_cash
    = Returns ((fun d => (d, filled lib df start_cash d))
                 <$> seqZ lo (hi - lo + 1)).
Proof.
  intros Hrows.
  assert (exists lo, index_min (exit_dates df) = Some lo) as [lo Hlo].
  { unfold exit_dates. destruct (rows df); [done|]. simpl. eauto. }
  assert (exists hi, index_max (exit_dates df) = Some hi) as [hi Hhi].
  { unfold exit_dates. destruct (rows df); [done|]. simpl. eauto. }
  exists lo, hi. split; [done|]. split; [done|].
  unfold daily_returns_complete. rewrite daily_returns_eq.
  rewrite <- !list_fmap_compose.
  change (fst ∘ _) with (@id Z). rewrite list_fmap_id.
  rewrite (index_min_ext _ (exit_dates df)) by apply elem_of_group_keys.
  rewrite (index_max_ext _ (exit_dates df)) by apply elem_of_group_keys.
  rewrite Hlo, Hhi. simpl. f_equal.
  unfold fillna, reindex. rewrite <- list_fmap_compose.
  apply list_fmap_ext. intros i d _. simpl. f_equal.
  rewrite at_label_fmap. unfold filled.
  rewrite (decide_ext _ _ _ _ (elem_of_group_keys (exit_dates df) d)).
  by destruct (decide (d ∈ exit_dates df)).
Qed.

End Calls.

(** ** Floats: what a division by a degenerate volatility gives *)

Lemma SFeqb_finite_refl s m e :
  SFeqb (S754_finite s m e) (S754_finite s m e) = true.
Proof.
  unfold SFeqb, SFcompare.
  rewrite Z.compare_refl, Pos.compare_cont_refl. by destruct s.
Qed.

Lemma degenerate_spec vol :
  degenerate vol = true ->
  Prim2SF vol = S754_nan \/ exists s, Prim2SF vol = S754_zero s.
Proof.
  unfold degenerate, PrimFloat.is_nan. rewrite !FloatAxioms.eqb_spec.
  change (Prim2SF 0) with (S754_zero false).
  destruct (Prim2SF vol) as [s|s| |s m e]; intros H.
  - right. by exists s.
  - by destruct s.
  - by left.
  - rewrite SFeqb_finite_refl in H. by destruct s.
Qed.

Lemma div_by_degenerate x vol :
  degenerate vol = true ->
  Prim2SF (PrimFloat.div x vol) = S754_nan \/
  exists s, Prim2SF (PrimFloat.div x vol) = S754_infinity s.
Proof.
  intros H. rewrite div_spec. unfold SF64div, SFdiv.
  destruct (degenerate_spec vol H) as [->|[s ->]];
    destruct (Prim2SF x); eauto.
Qed.

Lemma mul_nonfinite a c :
  (exists s m e, Prim2SF c = S754_finite s m e) ->
  Prim2SF a = S754_nan \/ (exists s, Prim2SF a = S754_infinity s) ->
  Prim2SF (PrimFloat.mul a c) = S754_nan \/
  exists s, Prim2SF (PrimFloat.mul a c) = S754_infinity s.
Proof.
  intros (s & m & e & Hc) Ha. rewrite mul_spec, Hc. unfold SF64mul, SFmul.
  destruct Ha as [->|[s' ->]]; eauto.
Qed.

Lemma nonfinite_spec r :
  Prim2SF r = S754_nan \/ (exists s, Prim2SF r = S754_infinity s) ->
  PrimFloat.is_finite r = false.
Proof.
  unfold PrimFloat.is_finite, PrimFloat.is_nan, PrimFloat.is_infinity.
  rewrite !FloatAxioms.eqb_spec, abs_spec.
  change (Prim2SF infinity) with (S754_infinity false).
  intros [->|[s ->]]; [done|]. by destruct s.
Qed.

Lemma sqrt_252_finite : exists s m e, Prim2SF (PrimFloat.sqrt 252) = S754_finite s m e.
Proof. eexists _, _, _. vm_compute. reflexivity. Qed.

(** A quotient by a volatility that is zero or NaN, annualised, is NaN or an
    infinity. *)
Lemma sharpe_nonfinite x vol :
  degenerate vol = true ->
  PrimFloat.is_finite (PrimFloat.mul (PrimFloat.div x vol) (PrimFloat.sqrt 252))
  = false.
Proof.
  intros H. apply nonfinite_spec, mul_nonfinite; [apply sqrt_252_finite|].
  by apply div_by_degenerate.
Qed.

(** ** The filled series has no NaN *)

Lemma is_nan_fillna0 x : PrimFloat.is_nan (fillna0 x) = false.
Proof. unfold fillna0. by destruct (PrimFloat.is_nan x) eqn:E. Qed.

Lemma fillna0_id xs :
  Forall (fun x => PrimFloat.is_nan x = false) xs -> fillna0 <$> xs = xs.
Proof.
  induction 1 as [|x xs Hx _ IH]; [done|].
  rewrite fmap_cons, IH. unfold fillna0. by rewrite Hx.
Qed.

Lemma count_id xs :
  Forall (fun x => PrimFloat.is_nan x = false) xs -> count xs = length xs.
Proof.
  unfold count. induction 1 as [|x xs Hx _ IH]; [done|].
  simpl. rewrite Hx. simpl. by rewrite IH.
Qed.

Lemma count_le_length xs : (count xs <= length xs)%nat.
Proof.
  unfold count. induction xs as [|x xs IH]; [done|].
  simpl. destruct (negb (PrimFloat.is_nan x)); simpl; lia.
Qed.

Lemma squares_id (avg : float) xs :
  Forall (fun x => PrimFloat.is_nan x = false) xs ->
  (fun x => if PrimFloat.is_nan x then 0%float
            else let d := PrimFloat.sub avg x in PrimFloat.mul d d) <$> xs
  = (fun x => let d := PrimFloat.sub avg x in PrimFloat.mul d d) <$> xs.
Proof.
  induction 1 as [|x xs Hx _ IH]; [done|].
  rewrite !fmap_cons, IH. by rewrite Hx.
Qed.

(** The standard deviation of at most one value is NaN. *)
Lemma std_short lib xs : (length xs <= 1)%nat -> std lib xs = PrimFloat.nan.
Proof.
  intros Hlen. unfold std. pose proof (count_le_length xs) as Hc.
  destruct (Nat.leb_spec (count xs) 1) as [_|Hgt]; [done|lia].
Qed.

Section Properties.

Variable lib : library.

Lemma complete_no_nan df start_cash complete :
  daily_returns_complete lib df start_cash = Returns complete ->
  Forall (fun x => PrimFloat.is_nan x = false) complete.*2.
Proof.
  unfold daily_returns_complete. destruct (date_range _ _ _); [|done].
  intros [= <-]. unfold fillna.
  rewrite <- list_fmap_compose. apply Forall_fmap, Forall_forall.
  intros kv _. apply is_nan_fillna0.
Qed.

(** ** The properties of [compute_sharpe_metrics] *)

(** C4, as the code has it.  On a ledger with at least one trade the daily
    return series has exactly (last exit day - first exit day) + 1 entries,
    one per calendar day from the day of the earliest exit to the day of the
    latest; a day on which no trade was closed has return [0.0]; a day on
    which trades were closed has the library's sum of the realized PnL of
    the trades closed that day over [start_cash], except that a quotient that
    is NaN is filled with [0.0] as well. *)
Theorem reindexing_law (df : DataFrame) (start_cash risk_free_rate : float) :
  rows df <> [] ->
  exists lo hi complete annual_vol annual_sharpe mean_daily_return,
    (exists r, r ∈ rows df /\ closed_on lo r = true) /\
    (exists r, r ∈ rows df /\ closed_on hi r = true) /\
    (forall r, r ∈ rows df ->
       (lo * 86400 <= exit_time r < (hi + 1) * 86400)%Z) /\
    (lo <= hi)%Z /\
    (compute_sharpe_metrics lib df start_cash risk_free_rate).2
    = Returns (complete, annual_vol, annual_sharpe, mean_daily_return) /\
    length complete = Z.to_nat (hi - lo + 1) /\
    complete.*1 = seqZ lo (hi - lo + 1) /\
    forall d v, (d, v) ∈ complete ->
      (pnl_closed_on d df = [] -> v = 0%float) /\
      (pnl_closed_on d df <> [] ->
       v = fillna0
             (PrimFloat.div (group_sum lib (pnl_closed_on d df)) start_cash) /\
       (PrimFloat.is_nan
          (PrimFloat.div (group_sum lib (pnl_closed_on d df)) start_cash)
        = false ->
        v = PrimFloat.div (group_sum lib (pnl_closed_on d df)) start_cash)).
Proof.
  intros Hrows.
  destruct (daily_returns_complete_spec lib df start_cash Hrows)
    as (lo & hi & Hlo & Hhi & Hc).
  apply index_min_spec in Hlo as [Hlo Hmin].
  apply index_max_spec in Hhi as [Hhi Hmax].
  assert (forall d, d ∈ exit_dates df ->
            exists r, r ∈ rows df /\ closed_on d r = true) as Hday.
  { intros d Hd. apply list_elem_of_fmap in Hd as (r & -> & Hr).
    exists r. split; [done|]. by apply date_of_closed_on. }
  eexists lo, hi, _, _, _, _.
  split; [by apply Hday|]. split; [by apply Hday|]. split.
  { intros r Hr.
    assert (date_of (exit_time r) ∈ exit_dates df) as Hd
      by (apply list_elem_of_fmap; by exists r).
    pose proof (Hmin _ Hd) as H1. pose proof (Hmax _ Hd) as H2.
    assert (closed_on (date_of (exit_time r)) r = true) as Hcl
      by by apply date_of_closed_on.
    unfold closed_on in Hcl.
    apply andb_true_iff in Hcl as [Ha Hb].
    apply Z.leb_le in Ha. apply Z.ltb_lt in Hb. nia. }
  split; [by apply Hmax|].
  split.
  { unfold compute_sharpe_metrics. rewrite Hc. reflexivity. }
  split; [by rewrite length_fmap, length_seqZ|].
  split.
  { rewrite <- list_fmap_compose. change (fst ∘ _) with (@id Z).
    by rewrite list_fmap_id. }
  intros d v Hdv. apply list_elem_of_fmap in Hdv as (d' & [= -> ->] & _).
  unfold filled. split.
  - intros Hd. rewrite decide_False; [done|].
    intros Hin. by apply elem_of_exit_dates in Hin.
  - intros Hd. rewrite decide_True by by apply elem_of_exit_dates.
    split; [done|].
    intros Hn. unfold fillna0. by rewrite Hn.
Qed.

(** C5, as the code has it.  A degenerate series does not make the
    computation fail: on every ledger with at least one trade it returns its
    four results; the daily volatility of a single-day series is NaN; and
    whenever the daily volatility is zero or NaN, the annualised Sharpe ratio
    returned is NaN or an infinity. *)
Theorem degenerate_series_returns (df : DataFrame)
    (start_cash risk_free_rate : float) :
  rows df <> [] ->
  exists complete annual_vol annual_sharpe mean_daily_return,
    (compute_sharpe_metrics lib df start_cash risk_free_rate).2
    = Returns (complete, annual_vol, annual_sharpe, mean_daily_return) /\
    (length complete = 1%nat -> degenerate (std lib complete.*2) = true) /\
    (degenerate (std lib complete.*2) = true ->
     PrimFloat.is_finite annual_sharpe = false).
Proof.
  intros Hrows.
  destruct (daily_returns_complete_spec lib df start_cash Hrows)
    as (lo & hi & _ & _ & Hc).
  unfold compute_sharpe_metrics. rewrite Hc. simpl.
  eexists _, _, _, _. split; [reflexivity|]. split.
  - intros Hlen. rewrite std_short; [done|].
    rewrite length_fmap. lia.
  - apply sharpe_nonfinite.
Qed.

(** C6, as the code has it.  On a ledger without a closed trade the
    computation fails, no date range can be formed; the exception is the one
    that the data-frame library has for a date range without bounds, not an
    [EmptyLedgerError], and nothing is returned. *)
Theorem empty_ledger_raises (df : DataFrame) (start_cash risk_free_rate : float) :
  rows df = [] ->
  (compute_sharpe_metrics lib df start_cash risk_free_rate).2
  = Raises (raised (no_bounds lib)) /\
  (compute_sharpe_metrics lib df start_cash risk_free_rate).2
  <> Raises EmptyLedgerError /\
  forall m, (compute_sharpe_metrics lib df start_cash risk_free_rate).2
            <> Returns m.
Proof.
  intros Hrows.
  assert ((compute_sharpe_metrics lib df start_cash risk_free_rate).2
          = Raises (raised (no_bounds lib))) as ->.
  { unfold compute_sharpe_metrics, daily_returns_complete.
    rewrite daily_returns_eq. unfold exit_dates. rewrite Hrows. reflexivity. }
  split; [done|]. split; [|done].
  by destruct (no_bounds lib).
Qed.

(** C8.  When the filled series is not degenerate, the daily volatility is
    its sample standard deviation with the [N - 1] denominator, the annual
    volatility is that times the square root of 252, the annual Sharpe ratio
    is the mean less [risk_free_rate / 252], over the daily volatility, times
    the square root of 252, and the mean daily return is the plain mean of the
    series. *)
Theorem metrics_formulas (df : DataFrame) (start_cash risk_free_rate : float)
    (complete : list (Z * float)) :
  daily_returns_complete lib (with_exit_date df) start_cash = Returns complete ->
  degenerate (std lib complete.*2) = false ->
  std lib complete.*2 = sample_std lib complete.*2 /\
  (compute_sharpe_metrics lib df start_cash risk_free_rate).2
  = Returns
      (complete,
       PrimFloat.mul (sample_std lib complete.*2) (PrimFloat.sqrt 252),
       PrimFloat.mul
         (PrimFloat.div
            (PrimFloat.sub (arith_mean lib complete.*2)
               (PrimFloat.div risk_free_rate 252))
            (sample_std lib complete.*2))
         (PrimFloat.sqrt 252),
       arith_mean lib complete.*2).
Proof.
  intros Hc Hnd. pose proof (complete_no_nan _ _ _ Hc) as Hna.
  assert (1 < length complete.*2)%nat as Hlen.
  { destruct (Nat.leb_spec (length complete.*2) 1) as [Hle|]; [|done].
    by rewrite (std_short lib _ Hle) in Hnd. }
  assert (mean lib complete.*2 = arith_mean lib complete.*2) as Hmean.
  { unfold mean, arith_mean. rewrite (count_id _ Hna), (fillna0_id _ Hna).
    destruct (Nat.ltb_spec 0 (length complete.*2)); [done|lia]. }
  assert (std lib complete.*2 = sample_std lib complete.*2) as Hstd.
  { unfold std, sample_std, arith_mean.
    rewrite (count_id _ Hna), (fillna0_id _ Hna), (squares_id _ _ Hna).
    destruct (Nat.leb_spec (length complete.*2) 1); [lia|done]. }
  split; [done|].
  unfold compute_sharpe_metrics. rewrite Hc. simpl.
  by rewrite Hstd, Hmean.
Qed.

(** C9, as the code has it.  The call leaves the rows of the ledger and its
    other columns as they were, and adds to it (or overwrites in it) the
    column [exit_date] with the exit date of every row; this also when the
    call fails. *)
Theorem ledger_after_call (df : DataFrame) (start_cash risk_free_rate : float) :
  let df' := (compute_sharpe_metrics lib df start_cash risk_free_rate).1 in
  rows df' = rows df /\
  others df' = others df /\
  exit_date df' = Some (exit_dates df).
Proof.
  unfold compute_sharpe_metrics.
  by destruct (daily_returns_complete _ _ _).
Qed.

End Properties.

(** ** The properties on sample ledgers *)

(** Trades on day 0 and on day 3 give a series of four days: the return of
    the one trade of day 0, two days at [0.0], and the return of the two
    trades of day 3 together. *)
Lemma reindexing_law_sample :
  rows gap_ledger <> [] /\
  exists complete annual_vol annual_sharpe mean_daily_return,
    (compute_sharpe_metrics sample_library gap_ledger 10000
       default_risk_free_rate).2
    = Returns (complete, annual_vol, annual_sharpe, mean_daily_return) /\
    length complete = 4%nat /\
    complete.*1 = [0; 1; 2; 3]%Z /\
    complete = [(0%Z, PrimFloat.div 100 10000); (1%Z, 0%float);
                (2%Z, 0%float); (3%Z, PrimFloat.div (-20) 10000)].
Proof.
  assert (rows gap_ledger <> []) as Hrows by (intros H; discriminate H).
  split; [exact Hrows|].
  destruct (reindexing_law sample_library gap_ledger 10000
              default_risk_free_rate Hrows)
    as (lo & hi & c & av & ash & m & (r1 & Hr1 & Hlo) & (r2 & Hr2 & Hhi)
        & Hall & _ & Hc & Hlen & Hk & Hv).
  assert (lo = 0%Z /\ hi = 3%Z) as [-> ->].
  { assert (lo * 86400 <= 100 /\ 339200 < (hi + 1) * 86400)%Z as [H1 H2].
    { split; [apply (Hall {| exit_time := 100; pnl := 100 |}); left|].
      apply (Hall {| exit_time := 339200; pnl := 20 |}). right; right; left. }
    unfold closed_on in Hlo, Hhi.
    apply andb_true_iff in Hlo as [_ Hlo]. apply Z.ltb_lt in Hlo.
    apply andb_true_iff in Hhi as [Hhi _]. apply Z.leb_le in Hhi.
    assert (100 <= exit_time r1 /\ exit_time r2 <= 339200)%Z as [H3 H4].
    { cbn in Hr1, Hr2.
      repeat (apply elem_of_cons in Hr1 as [->|Hr1]);
        [| | |by apply elem_of_nil in Hr1];
        (repeat (apply elem_of_cons in Hr2 as [->|Hr2]);
           [| | |by apply elem_of_nil in Hr2]); cbn; lia. }
    lia. }
  exists c, av, ash, m. split; [exact Hc|]. split; [exact Hlen|].
  split; [exact Hk|].
  destruct c as [|[d0 v0] [|[d1 v1] [|[d2 v2] [|[d3 v3] [|? ?]]]]];
    try discriminate Hlen.
  injection Hk as -> -> -> ->.
  destruct (Hv 0%Z v0 ltac:(left)) as [_ H0].
  destruct (Hv 1%Z v1 ltac:(right; left)) as [H1 _].
  destruct (Hv 2%Z v2 ltac:(right; right; left)) as [H2 _].
  destruct (Hv 3%Z v3 ltac:(right; right; right; left)) as [_ H3].
  rewrite (H1 eq_refl), (H2 eq_refl).
  destruct (H0 ltac:(discriminate)) as [-> _].
  destruct (H3 ltac:(discriminate)) as [-> _].
  vm_compute. reflexivity.
Defined.

(** C4 as stated fails: with a starting capital of zero, the day of a trade
    without profit or loss has return [0.0] in the series, while its PnL over
    the starting capital is NaN; and so has, with a starting capital of
    10000, the day of an infinite gain and an infinite loss, whose sum is
    NaN. *)
Lemma nan_quotient_is_filled :
  (exists complete annual_vol annual_sharpe mean_daily_return,
     (compute_sharpe_metrics sample_library flat_trade 0
        default_risk_free_rate).2
     = Returns (complete, annual_vol, annual_sharpe, mean_daily_return) /\
     (0%Z, 0%float) ∈ complete /\
     pnl_closed_on 0 flat_trade = [0%float] /\
     0%float
     <> PrimFloat.div (group_sum sample_library (pnl_closed_on 0 flat_trade)) 0) /\
  (exists complete annual_vol annual_sharpe mean_daily_return,
     (compute_sharpe_metrics sample_library unbounded_trades 10000
        default_risk_free_rate).2
     = Returns (complete, annual_vol, annual_sharpe, mean_daily_return) /\
     (0%Z, 0%float) ∈ complete /\
     pnl_closed_on 0 unbounded_trades
     = [PrimFloat.infinity; PrimFloat.neg_infinity] /\
     0%float
     <> PrimFloat.div
          (group_sum sample_library (pnl_closed_on 0 unbounded_trades)) 10000).
Proof.
  split; eexists _, _, _, _; (split; [vm_compute; reflexivity|]);
    (split; [left|]); (split; [reflexivity|]);
    intros H; apply (f_equal PrimFloat.is_nan) in H; vm_compute in H;
    discriminate H.
Qed.

(** A single trade: the call returns, the daily volatility is NaN, and the
    Sharpe ratio is not finite. *)
Lemma degenerate_series_returns_sample :
  rows single_trade <> [] /\
  exists complete annual_vol annual_sharpe mean_daily_return,
    (compute_sharpe_metrics sample_library single_trade 10000
       default_risk_free_rate).2
    = Returns (complete, annual_vol, annual_sharpe, mean_daily_return) /\
    length complete = 1%nat /\
    degenerate (std sample_library complete.*2) = true /\
    PrimFloat.is_finite annual_sharpe = false.
Proof.
  assert (rows single_trade <> []) as Hrows by (intros H; discriminate H).
  split; [exact Hrows|].
  destruct (degenerate_series_returns sample_library single_trade 10000
              default_risk_free_rate Hrows)
    as (c & av & ash & m & Hc & Hone & Hd).
  assert (length c = 1%nat) as Hlen.
  { vm_compute in Hc. injection Hc as <- _ _ _. reflexivity. }
  exists c, av, ash, m. split; [exact Hc|]. split; [exact Hlen|].
  split; [exact (Hone Hlen)|exact (Hd (Hone Hlen))].
Defined.

(** C5 as stated fails: on a ledger of one trade the series has one day, its
    standard deviation is NaN, and the call returns a NaN volatility and a NaN
    Sharpe ratio instead of failing. *)
Lemma single_trade_returns_nan :
  (compute_sharpe_metrics sample_library single_trade 10000
     default_risk_free_rate).2
  = Returns ([(0%Z, PrimFloat.div 100 10000)], PrimFloat.nan, PrimFloat.nan,
             PrimFloat.div 100 10000) /\
  degenerate (std sample_library [PrimFloat.div 100 10000]) = true /\
  (compute_sharpe_metrics sample_library single_trade 10000
     default_risk_free_rate).2
  <> Raises DegenerateSeriesError.
Proof.
  split; [vm_compute; reflexivity|]. split; [vm_compute; reflexivity|].
  intros H. vm_compute in H. discriminate H.
Qed.

(** The empty ledger: the call fails, and not with an [EmptyLedgerError]. *)
Lemma empty_ledger_raises_sample :
  rows empty_ledger = [] /\
  (compute_sharpe_metrics sample_library empty_ledger 10000
     default_risk_free_rate).2
  = Raises (raised (no_bounds sample_library)) /\
  (compute_sharpe_metrics sample_library empty_ledger 10000
     default_risk_free_rate).2
  <> Raises EmptyLedgerError.
Proof.
  split; [reflexivity|].
  destruct (empty_ledger_raises sample_library empty_ledger 10000
              default_risk_free_rate eq_refl) as (H1 & H2 & _).
  split; [exact H1|exact H2].
Defined.

(** C6 as stated fails: the exception on the empty ledger is the library's,
    of one class or another, and not an [EmptyLedgerError]. *)
Lemma empty_ledger_library_error :
  ((compute_sharpe_metrics sample_library empty_ledger 10000
      default_risk_free_rate).2
   = Raises ValueError /\
   (compute_sharpe_metrics sample_library empty_ledger 10000
      default_risk_free_rate).2
   <> Raises EmptyLedgerError) /\
  ((compute_sharpe_metrics newer_sample_library empty_ledger 10000
      default_risk_free_rate).2
   = Raises AttributeError /\
   (compute_sharpe_metrics newer_sample_library empty_ledger 10000
      default_risk_free_rate).2
   <> Raises EmptyLedgerError).
Proof.
  split; (split; [vm_compute; reflexivity|]);
    intros H; vm_compute in H; discriminate H.
Qed.

(** The example of the specification: an annual volatility near 0.157 and an
    annual Sharpe ratio near 4.81. *)
Lemma metrics_formulas_sample :
  exists complete,
    daily_returns_complete sample_library (with_exit_date two_trades) 10000
    = Returns complete /\
    degenerate (std sample_library complete.*2) = false /\
    exists annual_vol annual_sharpe mean_daily_return,
      (compute_sharpe_metrics sample_library two_trades 10000 0).2
      = Returns (complete, annual_vol, annual_sharpe, mean_daily_return) /\
      annual_vol
      = PrimFloat.mul (sample_std sample_library complete.*2)
          (PrimFloat.sqrt 252) /\
      PrimFloat.ltb (PrimFloat.div 157 1000) annual_vol = true /\
      PrimFloat.ltb annual_vol (PrimFloat.div 158 1000) = true /\
      PrimFloat.ltb (PrimFloat.div 481 100) annual_sharpe = true /\
      PrimFloat.ltb annual_sharpe (PrimFloat.div 482 100) = true.
Proof.
  assert (exists complete,
            daily_returns_complete sample_library (with_exit_date two_trades)
              10000
            = Returns complete /\
            degenerate (std sample_library complete.*2) = false)
    as (c & Hc & Hd).
  { eexists. split; [vm_compute; reflexivity|]. vm_compute. reflexivity. }
  exists c. split; [exact Hc|]. split; [exact Hd|].
  destruct (metrics_formulas sample_library two_trades 10000 0 c Hc Hd)
    as [_ Hm].
  eexists _, _, _. split; [exact Hm|]. split; [reflexivity|].
  vm_compute in Hc. injection Hc as <-.
  repeat split; vm_compute; reflexivity.
Defined.

(** C9 as stated fails: the ledger handed over has no column [exit_date]; the
    ledger after the call has one. *)
Lemma ledger_gets_a_column :
  exit_date two_trades = None /\
  exit_date (compute_sharpe_metrics sample_library two_trades 10000 0).1
  = Some [0; 1]%Z /\
  (compute_sharpe_metrics sample_library two_trades 10000 0).1 <> two_trades.
Proof.
  split; [reflexivity|]. split; [vm_compute; reflexivity|].
  intros H. apply (f_equal exit_date) in H. vm_compute in H. discriminate H.
Qed.

End DataUtilsSpec.

(** * More of the code

    The rest develops properties that the code shows beyond those the
    specification states: the book-keeping of the strategy object over a
    replay, more of [compute_sharpe_metrics], and the two functions of
    [src/data_utils.py] that obtain the credentials and fetch the candles.
    What the functions print is left out, and with it [notify_order] and
    [print_acceptable_instruments], which only print. *)

(** ** The order of floats *)

Module FloatOrder.

Lemma is_nan_spec x : PrimFloat.is_nan x = true -> Prim2SF x = S754_nan.
Proof.
  unfold PrimFloat.is_nan. rewrite FloatAxioms.eqb_spec.
  destruct (Prim2SF x) as [s|s| |s m e]; intros H; try done.
  - by destruct s.
  - by rewrite DataUtilsSpec.SFeqb_finite_refl in H.
Qed.

Lemma ltb_nan_l x y : PrimFloat.is_nan x = true -> PrimFloat.ltb x y = false.
Proof. intros H. rewrite ltb_spec, (is_nan_spec x H). done. Qed.

Lemma ltb_nan_r x y : PrimFloat.is_nan y = true -> PrimFloat.ltb x y = false.
Proof.
  intros H. rewrite ltb_spec, (is_nan_spec y H). by destruct (Prim2SF x).
Qed.

Ltac cmp_cases :=
  repeat match goal with
    | H : context [Z.compare ?a ?b] |- _ =>
        destruct (Z.compare_spec a b); try subst
    | H : context [Pos.compare_cont Eq ?a ?b] |- _ =>
        change (Pos.compare_cont Eq a b) with (Pos.compare a b) in H;
        destruct (Pos.compare_spec a b); try subst
    | |- context [Z.compare ?a ?b] =>
        destruct (Z.compare_spec a b); try subst
    | |- context [Pos.compare_cont Eq ?a ?b] =>
        change (Pos.compare_cont Eq a b) with (Pos.compare a b);
        destruct (Pos.compare_spec a b); try subst
    end.

(** [x < y <= z] leaves no room for [z < x]. *)
Lemma SFltb_leb_asym x y z :
  SFltb x y = true -> SFleb y z = true -> SFltb z x = false.
Proof.
  unfold SFltb, SFleb, SFcompare.
  destruct x as [[]|[]| |[] mx ex], y as [[]|[]| |[] my ey],
    z as [[]|[]| |[] mz ez]; simpl; try done;
    intros H1 H2; cmp_cases; simpl in *; try done; try lia.
Qed.

(** [x <= y < z] leaves no room for [z < x]. *)
Lemma SFleb_ltb_asym x y z :
  SFleb x y = true -> SFltb y z = true -> SFltb z x = false.
Proof.
  unfold SFltb, SFleb, SFcompare.
  destruct x as [[]|[]| |[] mx ex], y as [[]|[]| |[] my ey],
    z as [[]|[]| |[] mz ez]; simpl; try done;
    intros H1 H2; cmp_cases; simpl in *; try done; try lia.
Qed.

Lemma ltb_leb_asym x y z :
  PrimFloat.ltb x y = true -> PrimFloat.leb y z = true ->
  PrimFloat.ltb z x = false.
Proof. rewrite !ltb_spec, leb_spec. apply SFltb_leb_asym. Qed.

Lemma leb_ltb_asym x y z :
  PrimFloat.leb x y = true -> PrimFloat.ltb y z = true ->
  PrimFloat.ltb z x = false.
Proof. rewrite !ltb_spec, leb_spec. apply SFleb_ltb_asym. Qed.

End FloatOrder.

Module StrategiesLedger.
Import Strategies.

(** The dict behind [r] exists and has the exit keys. *)
Definition closed_out (objs : list position) (r : loc) : bool :=
  match objs !! r with
  | Some q => match exit q with Some _ => true | None => false end
  | None => false
  end.

(** The book-keeping of the strategy object: every position ever created is
    listed exactly once, as open or as closed; the open ones lack the exit
    keys and the closed ones have them; and the broker has received one order
    per position created and one per position closed. *)
Definition books_balanced (s : strategy) : Prop :=
  open_positions s ++ closed_positions s ≡ₚ seq 0 (length (objects s)) /\
  Forall (fun r => unclosed (objects s) r = true) (open_positions s) /\
  Forall (fun r => closed_out (objects s) r = true) (closed_positions s) /\
  length (broker s) = length (objects s) + length (closed_positions s).

(** The order that closes a position of side [sd]: a sell for a long, a buy
    for a short. *)
Definition closes (sd : side) (o : order) : bool :=
  match sd, o with
  | long, Sell _ | short, Buy _ => true
  | _, _ => false
  end.

(** The order that opens a position of side [sd]. *)
Definition opens (sd : side) (o : order) : bool :=
  match sd, o with
  | long, Buy _ | short, Sell _ => true
  | _, _ => false
  end.

(** The orders recorded in a position go the right way. *)
Definition directions_ok (q : position) : bool :=
  opens (type q) (order_ref q) &&
  match exit q with
  | Some x => closes (type q) (exit_order x)
  | None => true
  end.

#[global] Instance books_balanced_dec (s : strategy) : Decision (books_balanced s).
Proof. unfold books_balanced. apply _. Defined.

(** The strategy with the default parameters after two bars that each opened
    a long and a third that closed both and opened a short. *)
Definition two_closed_one_short : strategy :=
  Eval vm_compute in
    match run always_equal default_params
            [bar_at 0 100 20; bar_at 60 101 25; bar_at 120 110 80] init with
    | Ok _ s | Raise _ s => s
    end.

End StrategiesLedger.

Module StrategiesLedgerSpec.
Import Strategies StrategiesSpec StrategiesLedger.

Section Ledger.

Variable value_eq : position -> position -> bool.
Variable p : params.

Lemma books_wf s : books_balanced s -> wf s.
Proof.
  intros (Hp & Hun & _ & _). split; [|done].
  assert (NoDup (open_positions s ++ closed_positions s)) as Hnd
    by (rewrite Hp; apply NoDup_seq).
  by apply NoDup_app in Hnd as [? _].
Qed.

Lemma length_marked b todo : forall objs,
  length (marked b todo objs) = length objs.
Proof.
  induction todo as [|[r o] todo IH]; intros objs; [done|].
  unfold marked in *. simpl. by rewrite IH, length_alter.
Qed.

Lemma closed_out_app_l objs news r :
  closed_out objs r = true -> closed_out (objs ++ news) r = true.
Proof.
  unfold closed_out. intros Hr.
  destruct (objs !! r) as [q|] eqn:Hq; [|done].
  by rewrite (lookup_app_l_Some _ _ _ _ Hq).
Qed.

Lemma length_entered b n :
  length (entered p b n) = length (order_ref <$> entered p b n).
Proof. by rewrite length_fmap. Qed.

(** The entries keep the books balanced. *)
Lemma after_entries_books b s :
  books_balanced s -> books_balanced (after_entries p b s).
Proof.
  intros Hb. pose proof (after_entries_wf p b s (books_wf s Hb)) as [_ Hun1].
  destruct Hb as (Hp & Hun & Hcl & Hbr).
  unfold books_balanced, after_entries in *. simpl in *.
  split; [|split; [done|split]].
  - rewrite length_app, seq_app. simpl.
    rewrite <- Hp, <- !app_assoc. f_equiv. apply Permutation_app_comm.
  - eapply Forall_impl; [exact Hcl|]. intros r. apply closed_out_app_l.
  - rewrite !length_app, length_fmap. lia.
Qed.

(** The exits keep the books balanced. *)
Lemma exits_books b s s' :
  books_balanced s -> exits value_eq p b s = Ok tt s' -> books_balanced s'.
Proof.
  intros Hb. pose proof (books_wf s Hb) as Hwf.
  destruct (exits_spec value_eq p b s Hwf) as (todo & Hf & ->).
  intros [= <-]. destruct Hb as (Hp & Hun & Hcl & Hbr).
  assert (NoDup (open_positions s ++ closed_positions s)) as Hnd
    by (rewrite Hp; apply NoDup_seq).
  apply NoDup_app in Hnd as (Hndo & Hdisj & Hndc).
  rewrite Forall_forall in Hun. rewrite Forall_forall in Hcl.
  split; [|split; [|split]]; simpl.
  - rewrite length_marked, <- Hp, Hf.
    rewrite (Permutation_app_comm (closed_positions s)), app_assoc.
    f_equiv. rewrite Permutation_app_comm.
    rewrite <- (filter_app_complement
                  (fun r => due p (objects s) b r = true) (open_positions s))
      at 3.
    done.
  - apply Forall_forall. intros r Hr.
    apply list_elem_of_filter in Hr as [Hd Hr].
    unfold unclosed. rewrite marked_lookup_ne; [by apply Hun|].
    rewrite Hf, list_elem_of_filter. tauto.
  - apply Forall_app. split; apply Forall_forall; intros r Hr.
    + unfold closed_out. rewrite marked_lookup_ne; [by apply Hcl|].
      rewrite Hf, list_elem_of_filter. intros [_ Ho]. by apply (Hdisj r).
    + assert (NoDup todo.*1) as Hndt by (rewrite Hf; by apply NoDup_filter).
      assert (r ∈ open_positions s) as Ho
        by (rewrite Hf in Hr; by apply list_elem_of_filter in Hr as [_ ?]).
      apply list_elem_of_fmap in Hr as ([r' o] & -> & Hro).
      change ((r', o).1) with r' in *.
      unfold closed_out. rewrite (marked_lookup b todo r' o) by done.
      destruct (unclosed_lookup _ _ (Hun _ Ho)) as [q ->]. done.
  - rewrite length_marked, !length_app, !length_fmap.
    lia.
Qed.

Lemma next_books b s :
  books_balanced s ->
  exists s', next value_eq p b s = Ok tt s' /\ books_balanced s'.
Proof.
  intros Hb. apply (after_entries_books b) in Hb.
  destruct (exits_spec value_eq p b _ (books_wf _ Hb)) as (todo & _ & He).
  rewrite next_unfold. eexists. split; [exact He|].
  eapply exits_books; [exact Hb|exact He].
Qed.

Lemma init_books : books_balanced init.
Proof. repeat split; constructor. Qed.

Lemma run_books bs : forall s,
  books_balanced s ->
  exists s', run value_eq p bs s = Ok tt s' /\ books_balanced s'.
Proof.
  induction bs as [|b bs IH]; intros s Hb.
  - exists s. done.
  - destruct (next_books b s Hb) as (s1 & Hn & Hb1).
    destruct (IH s1 Hb1) as (s' & Hr & Hb').
    exists s'. simpl. unfold bind. by rewrite Hn.
Qed.

(** *** The direction of the orders *)

Lemma scan_pos_closes b r acc s q :
  objects s !! r = Some q ->
  exists os,
    scan_pos p b r acc s
    = Ok (acc ++ ((fun o => (r, o)) <$> os)) (issue s os) /\
    Forall (fun o => closes (type q) o = true) os.
Proof.
  intros Hq. unfold scan_pos, bind, deref. rewrite Hq.
  destruct (type q) eqn:Ht; simpl.
  - destruct (gtb (rsi b) (exit_buy_rsi p)); simpl.
    + exists [Sell (length (broker s))]. split; [done|]. by repeat constructor.
    + exists []. simpl. by rewrite app_nil_r, issue_nil.
  - destruct (PrimFloat.ltb (rsi b) (exit_sell_rsi p)); simpl.
    + exists [Buy (length (broker s))]. split; [done|]. by repeat constructor.
    + exists []. simpl. by rewrite app_nil_r, issue_nil.
Qed.

(** What the scan queues for a position is an order that closes it. *)
Definition closing_pair (objs : list position) (ro : loc * order) : Prop :=
  exists q, objs !! ro.1 = Some q /\ closes (type q) ro.2 = true.

Lemma scan_closes b l : forall acc s todo s',
  Forall (fun r => is_Some (objects s !! r)) l ->
  Forall (closing_pair (objects s)) acc ->
  scan p b l acc s = Ok todo s' ->
  Forall (closing_pair (objects s)) todo.
Proof.
  induction l as [|r l IH]; intros acc s todo s' Hl Hacc Hs.
  - simpl in Hs. by injection Hs as <- <-.
  - apply Forall_cons in Hl as [[q Hq] Hl].
    destruct (scan_pos_closes b r acc s q Hq) as (os & Hp & Hos).
    simpl in Hs. unfold bind in Hs at 1. rewrite Hp in Hs.
    apply (IH (acc ++ ((fun o => (r, o)) <$> os)) (issue s os) todo s');
      [done| |done].
    apply Forall_app. split; [done|].
    apply Forall_fmap. eapply Forall_impl; [exact Hos|].
    intros o Ho. by exists q.
Qed.

Lemma directions_marked b todo objs :
  NoDup todo.*1 ->
  Forall (closing_pair objs) todo ->
  Forall (fun q => directions_ok q = true) objs ->
  Forall (fun q => directions_ok q = true) (marked b todo objs).
Proof.
  intros Hnd Htodo Hobjs. apply Forall_lookup. intros i q' Hi.
  rewrite Forall_lookup in Hobjs.
  destruct (decide (i ∈ todo.*1)) as [Hin|Hin].
  - apply list_elem_of_fmap in Hin as ([r o] & -> & Hro).
    change ((r, o).1) with r in *.
    rewrite (marked_lookup b todo r o) in Hi by done.
    rewrite Forall_forall in Htodo.
    destruct (Htodo _ Hro) as (q & Hq & Hc). simpl in Hq, Hc.
    rewrite Hq in Hi. injection Hi as <-.
    specialize (Hobjs _ _ Hq). unfold directions_ok in *. simpl.
    apply andb_true_iff in Hobjs as [-> _]. done.
  - rewrite marked_lookup_ne in Hi by done. by eapply Hobjs.
Qed.

Lemma next_directions b s s' :
  wf s ->
  Forall (fun q => directions_ok q = true) (objects s) ->
  next value_eq p b s = Ok tt s' ->
  Forall (fun q => directions_ok q = true) (objects s').
Proof.
  intros Hwf Hd. rewrite next_unfold.
  pose proof (after_entries_wf p b s Hwf) as Hwf1.
  assert (Forall (fun q => directions_ok q = true)
            (objects (after_entries p b s))) as Hd1.
  { unfold after_entries. simpl. apply Forall_app. split; [done|].
    unfold entered.
    destruct (PrimFloat.ltb _ _), (gtb _ _); simpl; by repeat constructor. }
  set (s1 := after_entries p b s) in *.
  assert (Forall (fun r => is_Some (objects s1 !! r)) (open_positions s1))
    as Hsome.
  { destruct Hwf1 as [_ Hun]. eapply Forall_impl; [exact Hun|].
    intros r. apply unclosed_lookup. }
  destruct (scan_spec p b (open_positions s1) [] s1 Hsome)
    as (todo & Hscan & Hf).
  pose proof (scan_closes b _ _ _ _ _ Hsome (Forall_nil_2 _) Hscan) as Hcl.
  assert (NoDup todo.*1) as Hnd by (rewrite Hf; apply NoDup_filter, Hwf1).
  unfold exits, bind. rewrite Hscan. simpl.
  rewrite close_all_spec; simpl; try apply Hwf1; try done.
  - intros [= <-]. simpl. by apply directions_marked.
  - intros r. rewrite Hf, list_elem_of_filter. tauto.
Qed.

Lemma run_directions bs : forall s,
  wf s ->
  Forall (fun q => directions_ok q = true) (objects s) ->
  exists s',
    run value_eq p bs s = Ok tt s' /\
    Forall (fun q => directions_ok q = true) (objects s').
Proof.
  induction bs as [|b bs IH]; intros s Hwf Hd.
  - exists s. done.
  - destruct (next_total value_eq p b s Hwf) as (s1 & Hn & Hwf1).
    destruct (IH s1 Hwf1 (next_directions b s s1 Hwf Hd Hn)) as (s' & Hr & Hd').
    exists s'. simpl. unfold bind. by rewrite Hn.
Qed.

(** What [next] leaves of the store: the dicts it had, those not queued
    untouched, and the new ones. *)
Lemma next_objects b s :
  wf s ->
  exists todo,
    todo.*1 = filter (fun r => due p (objects (after_entries p b s)) b r = true)
                (open_positions (after_entries p b s)) /\
    NoDup todo.*1 /\
    next value_eq p b s
    = Ok tt {| objects := marked b todo (objects (after_entries p b s));
               open_positions :=
                 filter (fun r => due p (objects (after_entries p b s)) b r <> true)
                   (open_positions (after_entries p b s));
               closed_positions := closed_positions s ++ todo.*1;
               broker := broker (after_entries p b s) ++ todo.*2 |}.
Proof.
  intros Hwf. pose proof (after_entries_wf p b s Hwf) as Hwf1.
  destruct (exits_spec value_eq p b _ Hwf1) as (todo & Hf & He).
  exists todo. split; [done|]. split.
  - rewrite Hf. apply NoDup_filter, Hwf1.
  - by rewrite next_unfold.
Qed.

(** ** Properties of the strategy object over a replay *)

(** X1.  After the replay of any bar sequence every position ever created
    is listed exactly once, in the open list or in the closed list; the open
    ones have no exit keys and the closed ones have them. *)
Theorem replay_partitions_positions (bs : list bar) :
  exists s,
    run value_eq p bs init = Ok tt s /\
    open_positions s ++ closed_positions s ≡ₚ seq 0 (length (objects s)) /\
    Forall (fun r => unclosed (objects s) r = true) (open_positions s) /\
    Forall (fun r => closed_out (objects s) r = true) (closed_positions s).
Proof.
  destruct (run_books bs init init_books) as (s & Hr & Hp & Hun & Hcl & _).
  by exists s.
Qed.

(** X2.  After the replay of any bar sequence the broker has received
    exactly one order per position created and one more per position
    closed. *)
Theorem replay_counts_orders (bs : list bar) :
  exists s,
    run value_eq p bs init = Ok tt s /\
    length (broker s) = length (objects s) + length (closed_positions s).
Proof.
  destruct (run_books bs init init_books) as (s & Hr & _ & _ & _ & Hb).
  by exists s.
Qed.

(** X3.  After the replay of any bar sequence every long position was
    opened by a buy order and, once closed, closed by a sell order; every
    short position was opened by a sell and closed by a buy. *)
Theorem replay_order_directions (bs : list bar) :
  exists s,
    run value_eq p bs init = Ok tt s /\
    forall r q, objects s !! r = Some q ->
      opens (type q) (order_ref q) = true /\
      forall x, exit q = Some x -> closes (type q) (exit_order x) = true.
Proof.
  destruct (run_directions bs init) as (s & Hr & Hd);
    [apply init_wf|constructor|].
  exists s. split; [done|]. intros r q Hq.
  rewrite Forall_lookup in Hd. specialize (Hd _ _ Hq).
  unfold directions_ok in Hd. apply andb_true_iff in Hd as [Ho Hx].
  split; [done|]. intros x Hex. by rewrite Hex in Hx.
Qed.

(** X4.  A call of [next] only appends to the closed list, and leaves the
    dict of every position that was already closed as it was. *)
Theorem closed_positions_are_final (s : strategy) (b : bar) :
  books_balanced s ->
  exists s',
    next value_eq p b s = Ok tt s' /\
    closed_positions s `prefix_of` closed_positions s' /\
    forall r, r ∈ closed_positions s -> objects s' !! r = objects s !! r.
Proof.
  intros Hb. pose proof (books_wf s Hb) as Hwf.
  destruct (next_objects b s Hwf) as (todo & Hf & Hnd & Hn).
  eexists. split; [exact Hn|]. simpl. split; [by apply prefix_app_r|].
  intros r Hr. destruct Hb as (Hp & _ & Hcl & _).
  assert (NoDup (open_positions s ++ closed_positions s)) as Hnd'
    by (rewrite Hp; apply NoDup_seq).
  apply NoDup_app in Hnd' as (_ & Hdisj & _).
  rewrite Forall_forall in Hcl. specialize (Hcl r Hr).
  unfold closed_out in Hcl.
  destruct (objects s !! r) as [q|] eqn:Hq; [|done].
  rewrite marked_lookup_ne.
  - unfold after_entries. simpl. by apply lookup_app_l_Some.
  - rewrite Hf, list_elem_of_filter. intros [_ Ho].
    unfold after_entries in Ho. simpl in Ho.
    apply elem_of_app in Ho as [Ho|Ho]; [by apply (Hdisj r)|].
    apply elem_of_seq in Ho. apply lookup_lt_Some in Hq. lia.
Qed.

(** X5.  A call of [next] deletes no position and rewrites no entry key:
    every dict of the store is still there with the side, the entry
    indicator value, price and time, and the opening order it had. *)
Theorem entry_fields_are_kept (s : strategy) (b : bar) :
  wf s ->
  exists s',
    next value_eq p b s = Ok tt s' /\
    forall r q, objects s !! r = Some q ->
      exists q',
        objects s' !! r = Some q' /\
        type q' = type q /\ entry_rsi q' = entry_rsi q /\
        entry_price q' = entry_price q /\ entry_time q' = entry_time q /\
        order_ref q' = order_ref q.
Proof.
  intros Hwf. destruct (next_objects b s Hwf) as (todo & Hf & Hnd & Hn).
  eexists. split; [exact Hn|]. cbn [objects]. intros r q Hq.
  assert (objects (after_entries p b s) !! r = Some q) as Hq1
    by (unfold after_entries; simpl; by apply lookup_app_l_Some).
  destruct (decide (r ∈ todo.*1)) as [Hin|Hin].
  - apply list_elem_of_fmap in Hin as ([r' o] & -> & Hro).
    change ((r', o).1) with r' in *.
    exists (mark b o q). rewrite (marked_lookup b todo r' o) by done.
    by rewrite Hq1.
  - exists q. by rewrite marked_lookup_ne.
Qed.

(** X6.  The exits take a whole side at once: when the indicator value is
    above [exit_buy_rsi] no long position is left open by the call, the one
    it may have just opened included, and otherwise every long that was open
    stays open; likewise for the shorts with [exit_sell_rsi]. *)
Theorem exits_take_whole_side (s : strategy) (b : bar) :
  wf s ->
  exists s',
    next value_eq p b s = Ok tt s' /\
    (forall r q, r ∈ open_positions s' -> objects s' !! r = Some q ->
       (type q = long -> gtb (rsi b) (exit_buy_rsi p) = false) /\
       (type q = short -> PrimFloat.ltb (rsi b) (exit_sell_rsi p) = false)) /\
    (forall r q, r ∈ open_positions s -> objects s !! r = Some q ->
       (type q = long -> gtb (rsi b) (exit_buy_rsi p) = false ->
        r ∈ open_positions s') /\
       (type q = short -> PrimFloat.ltb (rsi b) (exit_sell_rsi p) = false ->
        r ∈ open_positions s')).
Proof.
  intros Hwf. destruct (next_objects b s Hwf) as (todo & Hf & Hnd & Hn).
  eexists. split; [exact Hn|]. cbn [objects open_positions]. split.
  - intros r q Hr Hq. apply list_elem_of_filter in Hr as [Hd Hr].
    rewrite marked_lookup_ne in Hq
      by (rewrite Hf, list_elem_of_filter; tauto).
    unfold due in Hd. rewrite Hq in Hd. unfold exit_signal in Hd.
    split; intros Ht; rewrite Ht in Hd; simpl in Hd.
    + by destruct (gtb (rsi b) (exit_buy_rsi p)).
    + by destruct (PrimFloat.ltb (rsi b) (exit_sell_rsi p)).
  - intros r q Hr Hq.
    assert (objects (after_entries p b s) !! r = Some q) as Hq1
      by (unfold after_entries; simpl; by apply lookup_app_l_Some).
    assert (r ∈ open_positions (after_entries p b s)) as Hr1
      by (unfold after_entries; simpl; apply elem_of_app; by left).
    split; intros Ht Hc; apply list_elem_of_filter; (split; [|done]);
      unfold due, exit_signal; rewrite Hq1, Ht, Hc; simpl; done.
Qed.

(** X7.  A bar whose indicator value is NaN changes nothing, whatever the
    thresholds: every comparison with it is false. *)
Theorem nan_indicator_is_quiet (s : strategy) (b : bar) :
  wf s ->
  PrimFloat.is_nan (rsi b) = true ->
  next value_eq p b s = Ok tt s.
Proof.
  intros [_ Hun] Hnan. unfold next, entries, exits, bind, gtb.
  rewrite (FloatOrder.ltb_nan_l _ _ Hnan), (FloatOrder.ltb_nan_r _ _ Hnan).
  simpl. rewrite scan_quiet; [done|done|].
  eapply Forall_impl; [exact Hun|]. intros r Hr.
  unfold due. destruct (objects s !! r); [|done].
  unfold exit_signal, gtb.
  rewrite (FloatOrder.ltb_nan_l _ _ Hnan), (FloatOrder.ltb_nan_r _ _ Hnan).
  by rewrite !andb_false_r.
Qed.

(** X8.  When the thresholds are ordered as the defaults are, with
    [buy_rsi <= exit_buy_rsi] and [exit_sell_rsi <= sell_rsi], no position is
    closed by the call that opened it: the positions a call closes were open
    before it, and the ones it creates are open after it. *)
Theorem ordered_thresholds_no_same_bar_close (s : strategy) (b : bar) :
  PrimFloat.leb (buy_rsi p) (exit_buy_rsi p) = true ->
  PrimFloat.leb (exit_sell_rsi p) (sell_rsi p) = true ->
  wf s ->
  exists s',
    next value_eq p b s = Ok tt s' /\
    (forall r, r ∈ newly_closed (length (closed_positions s)) s' ->
       r ∈ open_positions s) /\
    (forall r, length (objects s) <= r < length (objects s') ->
       r ∈ open_positions s').
Proof.
  intros Hlong Hshort Hwf.
  destruct (next_objects b s Hwf) as (todo & Hf & Hnd & Hn).
  eexists. split; [exact Hn|].
  assert (forall i q, entered p b (length (broker s)) !! i = Some q ->
            exit_signal p b q = false) as Hquiet.
  { intros i q. unfold entered, exit_signal, gtb.
    destruct (PrimFloat.ltb (rsi b) (buy_rsi p)) eqn:H1,
      (PrimFloat.ltb (sell_rsi p) (rsi b)) eqn:H2;
      destruct i as [|[|i]]; simpl; intros [= <-]; simpl;
      rewrite ?andb_false_r, ?orb_false_r;
      first [ exact (FloatOrder.ltb_leb_asym _ _ _ H1 Hlong)
            | exact (FloatOrder.leb_ltb_asym _ _ _ Hshort H2) ]. }
  assert (forall r, length (objects s) <= r ->
            r ∈ open_positions (after_entries p b s) ->
            due p (objects (after_entries p b s)) b r = false) as Hnew.
  { intros r Hle Hr. unfold due, after_entries. simpl.
    rewrite lookup_app_r by done.
    destruct (entered p b (length (broker s)) !! (r - length (objects s)))
      as [q|] eqn:Hq; [|done]. by eapply Hquiet. }
  assert (forall r, r ∈ open_positions s ->
            r < length (objects s)) as Hold.
  { intros r Hr. destruct Hwf as [_ Hun]. rewrite Forall_forall in Hun.
    by apply lookup_lt_is_Some, unclosed_lookup, Hun. }
  unfold newly_closed. cbn [closed_positions objects open_positions].
  rewrite drop_app_length. split.
  - intros r. rewrite Hf, list_elem_of_filter. intros [Hd Hr].
    unfold after_entries in Hr. simpl in Hr.
    apply elem_of_app in Hr as [Hr|Hr]; [done|].
    apply elem_of_seq in Hr.
    rewrite Hnew in Hd; [done|lia|].
    unfold after_entries. simpl. apply elem_of_app. right.
    by apply elem_of_seq.
  - rewrite length_marked. unfold after_entries at 1. simpl.
    rewrite length_app. intros r Hr.
    assert (r ∈ open_positions (after_entries p b s)) as Hr1.
    { unfold after_entries. simpl. apply elem_of_app. right.
      apply elem_of_seq. lia. }
    apply list_elem_of_filter. split; [|done].
    rewrite Hnew; [done|lia|done].
Qed.

(** X9.  When [buy_rsi <= sell_rsi], as with the defaults, a bar opens at
    most one position: the two entry conditions exclude each other. *)
Theorem ordered_thresholds_one_entry (s : strategy) (b : bar) :
  PrimFloat.leb (buy_rsi p) (sell_rsi p) = true ->
  exists s1,
    entries p b s = Ok tt s1 /\
    length (created (length (objects s)) s1) <= 1 /\
    length (open_positions s1) <= S (length (open_positions s)).
Proof.
  intros Hle. exists (after_entries p b s). split; [apply entries_spec|].
  unfold created, after_entries. simpl.
  rewrite drop_app_length, length_app, length_seq.
  assert (length (entered p b (length (broker s))) <= 1); [|lia].
  unfold entered, gtb.
  destruct (PrimFloat.ltb (rsi b) (buy_rsi p)) eqn:H1; simpl.
  - rewrite (FloatOrder.ltb_leb_asym _ _ _ H1 Hle). simpl. lia.
  - destruct (PrimFloat.ltb (sell_rsi p) (rsi b)); simpl; lia.
Qed.

End Ledger.

(** ** On sample runs *)

Ltac decided P := apply (bool_decide_unpack P); vm_compute; exact I.

(** A bar at 20 after two longs were closed and a short opened: the two
    closed positions stay first in the closed list, unchanged. *)
Lemma closed_positions_are_final_sample :
  books_balanced two_closed_one_short /\
  exists s',
    next always_equal default_params (bar_at 180 95 20) two_closed_one_short
    = Ok tt s' /\
    [0; 1] `prefix_of` closed_positions s' /\
    objects s' !! 0 = objects two_closed_one_short !! 0.
Proof.
  assert (books_balanced two_closed_one_short) as Hb
    by decided (books_balanced two_closed_one_short).
  split; [exact Hb|].
  destruct (closed_positions_are_final always_equal default_params
              two_closed_one_short (bar_at 180 95 20) Hb)
    as (s' & Hn & Hpre & Hobj).
  exists s'. split; [exact Hn|]. split; [exact Hpre|].
  apply Hobj. left.
Defined.

(** A bar at 80 closes the two longs; their entry keys are as before. *)
Lemma entry_fields_are_kept_sample :
  wf two_longs /\
  exists s' q',
    next always_equal default_params (bar_at 180 110 80) two_longs = Ok tt s' /\
    objects s' !! 1 = Some q' /\
    type q' = long /\ entry_price q' = 101%float /\ entry_time q' = 60%Z.
Proof.
  assert (wf two_longs) as Hwf by decided (wf two_longs).
  split; [exact Hwf|].
  destruct (entry_fields_are_kept always_equal default_params two_longs
              (bar_at 180 110 80) Hwf) as (s' & Hn & Hkeep).
  destruct (Hkeep 1 _ eq_refl) as (q' & Hq' & Ht & _ & Hp & Htime & _).
  exists s', q'. repeat split; assumption.
Defined.

(** A bar at 80 leaves no long open. *)
Lemma exits_take_whole_side_sample :
  wf two_longs /\
  exists s',
    next always_equal default_params (bar_at 180 110 80) two_longs = Ok tt s' /\
    forall r q, r ∈ open_positions s' -> objects s' !! r = Some q ->
                type q <> long.
Proof.
  assert (wf two_longs) as Hwf by decided (wf two_longs).
  split; [exact Hwf|].
  destruct (exits_take_whole_side always_equal default_params two_longs
              (bar_at 180 110 80) Hwf) as (s' & Hn & Hleft & _).
  exists s'. split; [exact Hn|]. intros r q Hr Hq Ht.
  destruct (Hleft r q Hr Hq) as [Hlong _]. specialize (Hlong Ht).
  vm_compute in Hlong. discriminate Hlong.
Defined.

(** A bar whose indicator is NaN. *)
Lemma nan_indicator_is_quiet_sample :
  wf two_longs /\
  next always_equal overlapping (bar_at 180 110 PrimFloat.nan) two_longs
  = Ok tt two_longs.
Proof.
  assert (wf two_longs) as Hwf by decided (wf two_longs).
  split; [exact Hwf|].
  apply (nan_indicator_is_quiet always_equal overlapping two_longs
           (bar_at 180 110 PrimFloat.nan) Hwf).
  reflexivity.
Defined.

(** The default thresholds are ordered; a bar at 80 closes positions that
    were open before it only, and the short it opens stays open. *)
Lemma ordered_thresholds_no_same_bar_close_sample :
  wf two_longs /\
  exists s',
    next always_equal default_params (bar_at 180 110 80) two_longs = Ok tt s' /\
    (forall r, r ∈ newly_closed 0 s' -> r ∈ open_positions two_longs) /\
    (forall r, 2 <= r < length (objects s') -> r ∈ open_positions s').
Proof.
  assert (wf two_longs) as Hwf by decided (wf two_longs).
  split; [exact Hwf|].
  exact (ordered_thresholds_no_same_bar_close always_equal default_params
           two_longs (bar_at 180 110 80) eq_refl eq_refl Hwf).
Defined.

Lemma ordered_thresholds_one_entry_sample :
  exists s1,
    entries default_params (bar_at 180 110 80) two_longs = Ok tt s1 /\
    length (created 2 s1) <= 1 /\
    length (open_positions s1) <= 3.
Proof.
  exact (ordered_thresholds_one_entry default_params two_longs
           (bar_at 180 110 80) eq_refl).
Defined.

End StrategiesLedgerSpec.

Module DataUtilsMore.
Import DataUtils DataUtilsSpec.

(** Two trades closed on the same day. *)
Definition same_day_trades : DataFrame :=
  ledger_of [ {| exit_time := 100; pnl := 100 |};
              {| exit_time := 4000; pnl := (-40)%float |} ].

Lemma with_exit_date_again df :
  with_exit_date (with_exit_date df) = with_exit_date df.
Proof. done. Qed.

Lemma div_nan x : PrimFloat.div x PrimFloat.nan = PrimFloat.nan.
Proof.
  apply Prim2SF_inj. rewrite div_spec.
  change (Prim2SF PrimFloat.nan) with S754_nan.
  by destruct (Prim2SF x).
Qed.

Lemma index_min_single l d :
  l <> [] -> (forall x, x ∈ l -> x = d) -> index_min l = Some d.
Proof.
  intros Hne Hall. apply index_min_spec.
  destruct l as [|x l]; [done|]. split.
  - rewrite <- (Hall x); left.
  - intros y Hy. rewrite (Hall y Hy). lia.
Qed.

Lemma index_max_single l d :
  l <> [] -> (forall x, x ∈ l -> x = d) -> index_max l = Some d.
Proof.
  intros Hne Hall. apply index_max_spec.
  destruct l as [|x l]; [done|]. split.
  - rewrite <- (Hall x); left.
  - intros y Hy. rewrite (Hall y Hy). lia.
Qed.

Lemma filter_all_true {A} (f : A -> bool) (l : list A) :
  (forall x, x ∈ l -> f x = true) -> List.filter f l = l.
Proof.
  induction l as [|a l IH]; intros Hall; [done|].
  simpl. rewrite (Hall a) by left. f_equal. apply IH.
  intros x Hx. apply Hall. by right.
Qed.

(** ** More properties of [compute_sharpe_metrics] *)

Section Calls.

Variable lib : library.

(** X10.  The column that a call adds does not disturb a later call: the
    frame that a call leaves is left as it is by any further call, and gives
    the same result as the original frame, whatever the starting capital and
    the rate of that call. *)
Theorem rerun_on_the_returned_frame (df : DataFrame)
    (start_cash risk_free_rate start_cash' risk_free_rate' : float) :
  let df' := (compute_sharpe_metrics lib df start_cash risk_free_rate).1 in
  (compute_sharpe_metrics lib df' start_cash' risk_free_rate').1 = df' /\
  (compute_sharpe_metrics lib df' start_cash' risk_free_rate').2
  = (compute_sharpe_metrics lib df start_cash' risk_free_rate').2.
Proof.
  assert (forall c r, (compute_sharpe_metrics lib df c r).1 = with_exit_date df)
    as Hfst.
  { intros c r. unfold compute_sharpe_metrics.
    by destruct (daily_returns_complete _ _ _). }
  simpl. rewrite Hfst. unfold compute_sharpe_metrics.
  rewrite with_exit_date_again.
  by destruct (daily_returns_complete _ _ _).
Qed.

(** X11.  The daily-return series that a call returns holds no NaN, whatever
    the ledger and the starting capital: a return that is not a number has
    become [0.0].  (It can hold infinities.) *)
Theorem returned_series_has_no_nan (df : DataFrame)
    (start_cash risk_free_rate : float) (complete : list (Z * float))
    (annual_vol annual_sharpe mean_daily_return : float) :
  (compute_sharpe_metrics lib df start_cash risk_free_rate).2
  = Returns (complete, annual_vol, annual_sharpe, mean_daily_return) ->
  Forall (fun kv => PrimFloat.is_nan kv.2 = false) complete.
Proof.
  unfold compute_sharpe_metrics, daily_returns_complete.
  destruct (date_range _ _ _); [|done]. intros [= <- _ _ _].
  unfold fillna. apply Forall_fmap, Forall_forall. intros kv _.
  apply is_nan_fillna0.
Qed.

(** X12.  When all the trades of the ledger were closed on one calendar day
    the series has that single day, with the library's sum of the PnL of all
    the rows over the starting capital ([0.0] if that is NaN), and the annual
    volatility and the annual Sharpe ratio returned are both NaN. *)
Theorem single_day_ledger (df : DataFrame) (start_cash risk_free_rate : float)
    (d : Z) :
  rows df <> [] ->
  (forall r, r ∈ rows df ->
     (d * 86400 <= exit_time r < (d + 1) * 86400)%Z) ->
  exists m,
    (compute_sharpe_metrics lib df start_cash risk_free_rate).2
    = Returns ([(d, fillna0 (PrimFloat.div (group_sum lib (pnl <$> rows df))
                               start_cash))],
               PrimFloat.nan, PrimFloat.nan, m).
Proof.
  intros Hrows Hday.
  assert (forall r, r ∈ rows df -> closed_on d r = true) as Hcl.
  { intros r Hr. unfold closed_on. specialize (Hday r Hr).
    apply andb_true_iff. rewrite Z.leb_le, Z.ltb_lt. lia. }
  assert (forall x, x ∈ exit_dates df -> x = d) as Hall.
  { intros x Hx. apply list_elem_of_fmap in Hx as (r & -> & Hr).
    by apply date_of_closed_on, Hcl. }
  assert (exit_dates df <> []) as Hne.
  { unfold exit_dates. by destruct (rows df). }
  destruct (daily_returns_complete_spec lib df start_cash Hrows)
    as (lo & hi & Hlo & Hhi & Hc).
  rewrite (index_min_single _ d Hne Hall) in Hlo.
  rewrite (index_max_single _ d Hne Hall) in Hhi.
  injection Hlo as <-. injection Hhi as <-.
  replace (d - d + 1)%Z with 1%Z in Hc by lia.
  change (seqZ d 1) with [(0 + d)%Z] in Hc. rewrite Z.add_0_l in Hc.
  simpl in Hc.
  assert (d ∈ exit_dates df) as Hd.
  { destruct (exit_dates df) as [|x l]; [done|].
    rewrite <- (Hall x); left. }
  assert (filled lib df start_cash d
          = fillna0 (PrimFloat.div (group_sum lib (pnl <$> rows df))
                       start_cash)) as Hv.
  { unfold filled, pnl_closed_on. rewrite decide_True by done.
    by rewrite (filter_all_true _ _ Hcl). }
  rewrite Hv in Hc.
  eexists. unfold compute_sharpe_metrics. rewrite Hc.
  cbn [fmap list_fmap snd].
  rewrite (std_short lib) by (simpl; lia).
  rewrite div_nan. reflexivity.
Qed.

End Calls.

(** ** On sample ledgers *)

(** The series of [gap_ledger], four days of which two are filled, has no
    NaN. *)
Lemma returned_series_has_no_nan_sample :
  exists complete annual_vol annual_sharpe mean_daily_return,
    (compute_sharpe_metrics sample_library gap_ledger 10000
       default_risk_free_rate).2
    = Returns (complete, annual_vol, annual_sharpe, mean_daily_return) /\
    length complete = 4%nat /\
    Forall (fun kv => PrimFloat.is_nan kv.2 = false) complete.
Proof.
  eexists _, _, _, _. split; [vm_compute; reflexivity|].
  split; [reflexivity|].
  eapply (returned_series_has_no_nan sample_library gap_ledger 10000
            default_risk_free_rate).
  vm_compute. reflexivity.
Defined.

(** Two trades on day 0, +100 and -40: one day, at 60 over the capital. *)
Lemma single_day_ledger_sample :
  rows same_day_trades <> [] /\
  (forall r, r ∈ rows same_day_trades ->
     (0 * 86400 <= exit_time r < (0 + 1) * 86400)%Z) /\
  exists m,
    (compute_sharpe_metrics sample_library same_day_trades 10000
       default_risk_free_rate).2
    = Returns ([(0%Z, PrimFloat.div 60 10000)], PrimFloat.nan, PrimFloat.nan, m).
Proof.
  assert (rows same_day_trades <> []) as Hrows by (intros H; discriminate H).
  assert (forall r, r ∈ rows same_day_trades ->
            (0 * 86400 <= exit_time r < (0 + 1) * 86400)%Z) as Hall.
  { intros r Hr. cbn in Hr.
    repeat (apply elem_of_cons in Hr as [->|Hr]; [cbn; lia|]).
    by apply elem_of_nil in Hr. }
  split; [exact Hrows|]. split; [exact Hall|].
  destruct (single_day_ledger sample_library same_day_trades 10000
              default_risk_free_rate 0%Z Hrows Hall) as (m & Hr).
  exists m. exact Hr.
Defined.

End DataUtilsMore.

(** * Credentials and candles

    [get_oanda_client] and [fetch_instrument_candles] of [src/data_utils.py].
    The environment, the [.env] file, the service, the disk and the clock
    are what the call finds around it.  The prices of a candle are the floats
    that [float(...)] reads, and [start] and [end] are timestamps without a
    time zone or [None].  Outside the model are a response whose candles
    lack a key, or hold a number or a time that cannot be read, and a
    [start] or an [end] that has a time zone or cannot be read: on each of
    these an exception arises inside the [try], and the function returns
    [None]. *)

From stdpp Require Import gmap strings.

Module Oanda.
Import DataUtils.

(** ** Credentials *)

(** [load_dotenv()]: the entries of the [.env] file join the environment;
    a variable that the environment already has keeps its value. *)
Definition load_dotenv (dotenv environ : gmap string string)
  : gmap string string :=
  environ ∪ dotenv.

(** Python's truth of [os.getenv(...)]: set, and not the empty string. *)
Definition truthy (v : option string) : bool :=
  match v with
  | Some s => negb (String.eqb s "")
  | None => false
  end.

(** [oandapyV20.API(access_token=...)]. *)
Record API := { access_token : string }.

(** [get_oanda_client()]: the environment as the call leaves it, and the
    client with the account id, or the [ValueError]. *)
Definition get_oanda_client (dotenv environ : gmap string string)
  : gmap string string * result (API * string) :=
  let environ := load_dotenv dotenv environ in
  let api_key := environ !! "OANDA_API_KEY"%string in
  let account_id := environ !! "OANDA_ACCOUNT_ID"%string in
  if negb (truthy api_key) || negb (truthy account_id)
  then (environ, Raises ValueError)
  else (environ, Returns ({| access_token := default ""%string api_key |},
                          default ""%string account_id)).

(** ** Candles *)

(** Instants are counted in nanoseconds, as the data-frame library does. *)
Definition millisecond : Z := 1000000.
Definition second : Z := 1000000000.
Definition day : Z := 86400 * second.

(** A candle of a response: its time, the four mid prices, the volume, and
    the key ["complete"] when the candle has it. *)
Record candle := {
  time : Z;
  mid_o : float;
  mid_h : float;
  mid_l : float;
  mid_c : float;
  c_volume : Z;
  complete : option bool
}.

(** A dict of [parsed]: one row of the frame. *)
Record bar_row := {
  datetime : Z;
  open : float;
  high : float;
  low : float;
  close : float;
  volume : Z
}.

(** What [client.request(r)] gives: an exception, or the data with its
    candles ([data.get("candles", [])]). *)
Inductive response :=
  | RequestFailed
  | Data (candles : list candle).

(** What the call finds around it: the [.env] file and the environment, the
    answer of the service to the [n]-th request of the call for the candles
    from a given instant, whether the CSV file can be written, and the clock
    at its [n]-th reading. *)
Record world := {
  dotenv : gmap string string;
  environ : gmap string string;
  request : nat -> Z -> response;
  csv_writable : bool;
  utcnow : nat -> Z
}.

(** [next_from.strftime("%Y-%m-%dT%H:%M:%SZ")]: the instant, cut to the
    second. *)
Definition from_param (t : Z) : Z := (t / second * second)%Z.

(** [candle.get("complete", True)]. *)
Definition is_complete (c : candle) : bool := default true (complete c).

(** The list comprehension that builds [parsed]. *)
Definition parse (candles : list candle) : list bar_row :=
  (fun c => {| datetime := time c; open := mid_o c; high := mid_h c;
               low := mid_l c; close := mid_c c; volume := c_volume c |})
    <$> List.filter is_complete candles.

(** The exceptions that can arise inside the [try] of the function. *)
Inductive caught :=
  | IndexError   (* parsed[-1] on an empty list *)
  | OSError.     (* the CSV file cannot be written *)

(** How the [while] loop ends: normally, with [all_candles], or by an
    exception. *)
Inductive loop_end :=
  | Finished (all_candles : list bar_row)
  | Failed (e : caught).

(** [l[-2]]: no item when the list has fewer than two. *)
Definition second_to_last {A} (l : list A) : option A :=
  if (length l <? 2)%nat then None else l !! (length l - 2)%nat.

(** The [while next_from < end_dt] loop, with the instants requested so far.
    The loop need not end: [None] when [fuel] iterations were not enough. *)
Fixpoint fetch_loop (fuel : nat) (request : nat -> Z -> response) (end_dt : Z)
    (iteration : nat) (next_from : Z) (all_candles : list bar_row)
    (requests : list Z) : option (list Z * loop_end) :=
  match fuel with
  | O => None
  | S fuel =>
      if (next_from <? end_dt)%Z then
        let iteration := S iteration in
        let requests := requests ++ [from_param next_from] in
        match request iteration (from_param next_from) with
        | RequestFailed => Some (requests, Finished all_candles)
        | Data candles =>
            match candles with
            | [] => Some (requests, Finished all_candles)
            | _ :: _ =>
                let parsed := parse candles in
                let all_candles := all_candles ++ parsed in
                match last parsed with
                | None => Some (requests, Failed IndexError)
                | Some row =>
                    let last_ts := datetime row in
                    let stalled :=
                      (1 <? length all_candles)%nat &&
                      match second_to_last all_candles with
                      | Some prev => (last_ts <=? datetime prev)%Z
                      | None => false
                      end in
                    if stalled then Some (requests, Finished all_candles)
                    else
                      let next_from := (last_ts + millisecond)%Z in
                      if (next_from >=? end_dt)%Z
                      then Some (requests, Finished all_candles)
                      else fetch_loop fuel request end_dt iteration next_from
                             all_candles requests
                end
            end
        end
      else Some (requests, Finished all_candles)
  end.

(** The name of the CSV file: instrument, granularity and the two dates. *)
Record save_path := {
  sp_instrument : string;
  sp_granularity : string;
  sp_start_date : Z;
  sp_end_date : Z
}.

(** What a call has done and given back: the instants it requested candles
    from, the file it wrote, and the frame ([Some]) or [None], or the
    exception it raised. *)
Record fetched := {
  requests : list Z;
  saved : option (save_path * list bar_row);
  value : result (option (list bar_row))
}.

(** [start_dt] and [end_dt]: the arguments, or by default seven days before
    the clock's first reading, and the clock's next reading. *)
Definition start_dt_of (w : world) (start : option Z) : Z :=
  default (utcnow w 0 - 7 * day)%Z start.

Definition end_dt_of (w : world) (start end_ : option Z) : Z :=
  default (utcnow w (if start is None then 1 else 0)%nat) end_.

(** [fetch_instrument_candles(instrument, granularity, start, end, count)].
    The argument [count] is not read: every request asks for 5000 candles. *)
Definition fetch_instrument_candles (fuel : nat) (w : world)
    (instrument granularity : string) (start end_ : option Z) (count : nat)
  : option fetched :=
  match (get_oanda_client (dotenv w) (environ w)).2 with
  | Raises e => Some {| requests := []; saved := None; value := Raises e |}
  | Returns _ =>
      let start_dt := start_dt_of w start in
      let end_dt := end_dt_of w start end_ in
      match fetch_loop fuel (request w) end_dt 0 start_dt [] [] with
      | None => None
      | Some (reqs, Failed _) =>
          Some {| requests := reqs; saved := None; value := Returns None |}
      | Some (reqs, Finished all_candles) =>
          match all_candles with
          | [] =>
              Some {| requests := reqs; saved := None;
                      value := Returns (Some []) |}
          | _ :: _ =>
              if csv_writable w
              then Some {| requests := reqs;
                           saved :=
                             Some ({| sp_instrument := instrument;
                                      sp_granularity := granularity;
                                      sp_start_date := (start_dt / day)%Z;
                                      sp_end_date := (end_dt / day)%Z |},
                                   all_candles);
                           value := Returns (Some all_candles) |}
              else Some {| requests := reqs; saved := None;
                           value := Returns None |}
          end
      end
  end.

(** *** What the properties speak of *)

(** The answers of the service to the requests [reqs], the first of them
    being request number [n + 1] of the call. *)
Fixpoint answers (request : nat -> Z -> response) (n : nat) (reqs : list Z)
  : list response :=
  match reqs with
  | [] => []
  | f :: reqs' => request (S n) f :: answers request (S n) reqs'
  end.

(** The rows that an answer contributes to [all_candles]. *)
Definition rows_of (r : response) : list bar_row :=
  match r with
  | RequestFailed => []
  | Data candles => parse candles
  end.

(** An answer with candles of which none is complete. *)
Definition incomplete_only (r : response) : bool :=
  match r with
  | Data ((_ :: _) as candles) =>
      match parse candles with [] => true | _ :: _ => false end
  | _ => false
  end.

(** An answer fit for a request from the instant [f]: its complete candles
    are at whole seconds, none of them before [f]. *)
Definition orderly (f : Z) (r : response) : Prop :=
  Forall (fun row => (f <= datetime row)%Z /\ (second | datetime row)%Z)
    (rows_of r).

(** The number of iterations that suffice for a call on an orderly service:
    one per second of the range, and two. *)
Definition enough (start_dt end_dt : Z) : nat :=
  Z.to_nat ((end_dt - from_param start_dt) / second) + 2.

(** The value that a variable has for the call: the environment's, else the
    [.env] file's. *)
Definition resolve (dotenv environ : gmap string string) (k : string)
  : option string :=
  match environ !! k with
  | Some v => Some v
  | None => dotenv !! k
  end.

(** Both variables have a value for the call, and none is empty. *)
Definition has_credentials (dotenv environ : gmap string string) : bool :=
  truthy (resolve dotenv environ "OANDA_API_KEY") &&
  truthy (resolve dotenv environ "OANDA_ACCOUNT_ID").

(** The name of the file that a call writes. *)
Definition save_path_of (w : world) (instrument granularity : string)
    (start end_ : option Z) : save_path :=
  {| sp_instrument := instrument; sp_granularity := granularity;
     sp_start_date := (start_dt_of w start / day)%Z;
     sp_end_date := (end_dt_of w start end_ / day)%Z |}.

(** *** Sample data *)

Definition tick (t : Z) (c : option bool) : candle :=
  {| time := t; mid_o := 1; mid_h := 2; mid_l := 0; mid_c := 1;
     c_volume := 10; complete := c |}.

(** A service with a candle every second, two complete candles a page. *)
Definition every_second (n : nat) (f : Z) : response :=
  Data [tick f None; tick (f + second) (Some true)].

(** A service that answers every request with the same two candles. *)
Definition stuck (n : nat) (f : Z) : response :=
  Data [tick 0 None; tick second None].

(** A service that fails from its second request on. *)
Definition failing (n : nat) (f : Z) : response :=
  match n with
  | 1 => Data [tick f None; tick (f + second) None]
  | _ => RequestFailed
  end.

(** A service whose second page holds only the candle still forming. *)
Definition forming (n : nat) (f : Z) : response :=
  match n with
  | 1 => Data [tick f None; tick (f + second) None]
  | _ => Data [tick f (Some false)]
  end.

Definition sample_world (service : nat -> Z -> response) : world :=
  {| dotenv := {[ "OANDA_API_KEY"%string := "key"%string ]};
     environ := {[ "OANDA_ACCOUNT_ID"%string := "001"%string ]};
     request := service;
     csv_writable := true;
     utcnow := fun _ => (10 * second)%Z |}.

(** The account id is set, the key is set but empty in the environment,
    which hides the key of the [.env] file. *)
Definition shadowed_world : world :=
  {| dotenv := {[ "OANDA_API_KEY"%string := "key"%string ]};
     environ := {[ "OANDA_ACCOUNT_ID"%string := "001"%string;
                   "OANDA_API_KEY"%string := ""%string ]};
     request := every_second;
     csv_writable := true;
     utcnow := fun _ => (10 * second)%Z |}.

End Oanda.

Module OandaSpec.
Import DataUtils Oanda.

(** ** Credentials *)

Lemma load_dotenv_lookup dotenv environ k :
  load_dotenv dotenv environ !! k = resolve dotenv environ k.
Proof.
  unfold load_dotenv, resolve. rewrite lookup_union.
  destruct (environ !! k), (dotenv !! k); done.
Qed.

Lemma truthy_spec v : truthy v = true <-> exists s, v = Some s /\ s <> ""%string.
Proof.
  destruct v as [s|]; simpl.
  - rewrite negb_true_iff. split.
    + intros H. exists s. split; [done|]. intros ->. by rewrite String.eqb_refl in H.
    + intros (s' & [= <-] & Hne). by apply String.eqb_neq.
  - split; [done|]. by intros (s & ? & _).
Qed.

Lemma get_oanda_client_cases dotenv environ :
  (get_oanda_client dotenv environ).2
  = if has_credentials dotenv environ
    then Returns
           ({| access_token :=
                 default ""%string (resolve dotenv environ "OANDA_API_KEY") |},
            default ""%string (resolve dotenv environ "OANDA_ACCOUNT_ID"))
    else Raises ValueError.
Proof.
  unfold get_oanda_client, has_credentials.
  rewrite !load_dotenv_lookup.
  destruct (truthy (resolve dotenv environ "OANDA_API_KEY")),
    (truthy (resolve dotenv environ "OANDA_ACCOUNT_ID")); done.
Qed.

(** ** The loop *)

#[local] Arguments parse : simpl never.

Section Loop.

Variable request : nat -> Z -> response.
Variable end_dt : Z.

Lemma answers_app n l1 l2 :
  answers request n (l1 ++ l2)
  = answers request n l1 ++ answers request (n + length l1) l2.
Proof.
  revert n. induction l1 as [|f l1 IH]; intros n; simpl.
  - by rewrite Nat.add_0_r.
  - rewrite IH. do 3 f_equal. lia.
Qed.

(** How the loop ends, and with what: the rows are those of the answers
    received, in order; the loop fails exactly on an answer whose candles are
    all incomplete. *)
Lemma fetch_loop_spec fuel : forall iteration next_from all reqs0 reqs e,
  fetch_loop fuel request end_dt iteration next_from all reqs0
  = Some (reqs, e) ->
  exists new,
    reqs = reqs0 ++ new /\
    match e with
    | Finished all' =>
        all' = all ++ concat (rows_of <$> answers request iteration new)
    | Failed x => x = IndexError
    end /\
    match last (answers request iteration new) with
    | None => new = [] /\ e = Finished all
    | Some r => incomplete_only r = match e with Failed _ => true | _ => false end
    end.
Proof.
  induction fuel as [|fuel IH]; intros iteration next_from all reqs0 reqs e;
    [done|].
  simpl. destruct (next_from <? end_dt)%Z.
  2:{ intros [= <- <-]. exists []. by rewrite !app_nil_r. }
  destruct (request (S iteration) (from_param next_from)) as [|candles] eqn:Hr.
  { intros [= <- <-]. exists [from_param next_from]. simpl.
    rewrite Hr. simpl. by rewrite app_nil_r. }
  destruct candles as [|c candles].
  { intros [= <- <-]. exists [from_param next_from]. simpl.
    rewrite Hr. simpl. by rewrite app_nil_r. }
  destruct (last (parse (c :: candles))) as [row|] eqn:Hlast.
  2:{ intros [= <- <-]. exists [from_param next_from]. simpl.
      rewrite Hr. simpl. apply last_None in Hlast. by rewrite Hlast. }
  assert (incomplete_only (Data (c :: candles)) = false) as Hinc.
  { unfold incomplete_only. destruct (parse (c :: candles)); done. }
  match goal with |- context [if ?b then _ else _] => destruct b end.
  { intros [= <- <-]. exists [from_param next_from]. simpl.
    rewrite Hr. simpl. by rewrite app_nil_r. }
  destruct (_ >=? _)%Z.
  { intros [= <- <-]. exists [from_param next_from]. simpl.
    rewrite Hr. simpl. by rewrite app_nil_r. }
  intros Hloop. apply IH in Hloop as (new & -> & Hrows & Hend).
  exists (from_param next_from :: new). split; [by rewrite <- app_assoc|].
  simpl. rewrite Hr. split.
  - destruct e as [all'|x]; [|done]. rewrite Hrows. simpl.
    by rewrite <- app_assoc.
  - destruct (answers request (S iteration) new) as [|r rs] eqn:Ha.
    + simpl in *. destruct Hend as [_ ->]. done.
    + rewrite last_cons. destruct (last (r :: rs)); [done|].
      destruct Hend as [_ ->]. done.
Qed.

(** More fuel does not change the outcome of a loop that has ended. *)
Lemma fetch_loop_more fuel : forall k iteration next_from all reqs0 x,
  fetch_loop fuel request end_dt iteration next_from all reqs0 = Some x ->
  fetch_loop (fuel + k) request end_dt iteration next_from all reqs0 = Some x.
Proof.
  induction fuel as [|fuel IH]; intros k iteration next_from all reqs0 x;
    [done|].
  simpl. destruct (next_from <? end_dt)%Z; [|done].
  destruct (request _ _) as [|[|c candles]]; try done.
  destruct (last _); [|done].
  match goal with |- context [if ?b then _ else _] => destruct b end; [done|].
  destruct (_ >=? _)%Z; [done|]. apply IH.
Qed.

(** Every iteration makes at most one request. *)
Lemma fetch_loop_requests fuel : forall iteration next_from all reqs0 reqs e,
  fetch_loop fuel request end_dt iteration next_from all reqs0
  = Some (reqs, e) ->
  length reqs <= length reqs0 + fuel.
Proof.
  induction fuel as [|fuel IH]; intros iteration next_from all reqs0 reqs e;
    [done|].
  simpl. destruct (next_from <? end_dt)%Z; [|intros [= <- <-]; lia].
  destruct (request _ _) as [|[|c candles]];
    try (intros [= <- <-]; rewrite length_app; simpl; lia).
  destruct (last _); [|intros [= <- <-]; rewrite length_app; simpl; lia].
  match goal with |- context [if ?b then _ else _] => destruct b end;
    [intros [= <- <-]; rewrite length_app; simpl; lia|].
  destruct (_ >=? _)%Z; [intros [= <- <-]; rewrite length_app; simpl; lia|].
  intros H. apply IH in H. rewrite length_app in H. simpl in H. lia.
Qed.

Lemma from_param_whole t : (second | from_param t)%Z.
Proof. unfold from_param. apply Z.divide_factor_r. Qed.

Lemma from_param_le t : (from_param t <= t)%Z.
Proof.
  unfold from_param. rewrite Z.mul_comm.
  apply Z.mul_div_le. by unfold second.
Qed.

Lemma from_param_next t :
  (second | t)%Z -> from_param (t + millisecond) = t.
Proof.
  intros [k ->]. unfold from_param.
  rewrite Z.div_add_l by (by unfold second).
  replace (millisecond / second)%Z with 0%Z by reflexivity. lia.
Qed.

(** The item before the last of a list that has just been extended is among
    the new items, or is the last of the old ones. *)
Lemma second_to_last_app {A} (l k : list A) x :
  k <> [] -> second_to_last (l ++ k) = Some x -> x ∈ k \/ last l = Some x.
Proof.
  unfold second_to_last. intros Hk Hx. rewrite length_app in Hx.
  destruct (Nat.ltb_spec (length l + length k) 2) as [|Hlen]; [done|].
  destruct k as [|y k]; [done|]. simpl in Hx, Hlen.
  destruct k as [|z k].
  - right. simpl in Hx, Hlen. rewrite lookup_app_l in Hx by lia.
    rewrite last_lookup.
    by replace (pred (length l)) with (length l + 1 - 2) by lia.
  - left. rewrite lookup_app_r in Hx by (simpl; lia).
    by eapply list_elem_of_lookup_2.
Qed.

Lemma measure_step a b :
  (0 <= a)%Z -> (a + second <= b)%Z ->
  Z.to_nat (a / second) < Z.to_nat (b / second).
Proof.
  intros Ha Hb.
  assert (a / second + 1 <= b / second)%Z.
  { replace (a / second + 1)%Z with ((a + 1 * second) / second)%Z
      by (apply Z.div_add; by unfold second).
    apply Z.div_le_mono; [by unfold second|lia]. }
  assert (0 <= a / second)%Z by (apply Z.div_pos; [done|by unfold second]).
  lia.
Qed.

(** On an orderly service the loop ends once a first page has been taken:
    each further page either ends it or moves the last instant on by a second
    at least. *)
Lemma fetch_loop_ends_after fuel : forall iteration all reqs0 row,
  (forall n f, (second | f)%Z -> orderly f (request n f)) ->
  last all = Some row ->
  (second | datetime row)%Z ->
  Z.to_nat ((end_dt - datetime row) / second) < fuel ->
  is_Some (fetch_loop fuel request end_dt iteration
             (datetime row + millisecond) all reqs0).
Proof.
  induction fuel as [|fuel IH]; intros iteration all reqs0 row Hord Hlast Hw Hf;
    [lia|].
  simpl. destruct (_ <? _)%Z; [|done].
  rewrite (from_param_next _ Hw).
  pose proof (Hord (S iteration) (datetime row) Hw) as Ho.
  destruct (request (S iteration) (datetime row)) as [|[|c candles]];
    [done|done|].
  unfold orderly in Ho. simpl in Ho. cbn beta iota zeta.
  destruct (last (parse (c :: candles))) as [row'|] eqn:Hl'; [|done].
  assert (parse (c :: candles) <> []) as Hne
    by (intros H; by rewrite H in Hl').
  rewrite Forall_forall in Ho.
  match goal with |- context [if ?b then _ else _] => destruct b eqn:Hst end;
    [done|].
  destruct (Z.geb_spec (datetime row' + millisecond) end_dt) as [|Hlt'];
    [done|].
  destruct (Ho row' (last_Some_elem_of _ _ Hl')) as [Hle' Hw'].
  assert (datetime row < datetime row')%Z as Hadv.
  { apply andb_false_iff in Hst as [Hst|Hst].
    - apply Nat.ltb_ge in Hst. rewrite length_app in Hst.
      apply last_Some in Hlast as [l0 ->]. rewrite length_app in Hst.
      destruct (parse (c :: candles)); [done|]. simpl in Hst. lia.
    - destruct (second_to_last (all ++ parse (c :: candles))) as [prev|] eqn:Hp.
      + apply Z.leb_gt in Hst.
        destruct (second_to_last_app _ _ _ Hne Hp) as [Hin|Hin].
        * destruct (Ho prev Hin) as [? _]. lia.
        * rewrite Hlast in Hin. injection Hin as <-. lia.
      + unfold second_to_last in Hp. rewrite length_app in Hp.
        apply last_Some in Hlast as [l0 ->]. rewrite length_app in Hp.
        destruct (parse (c :: candles)) as [|r0 rs]; [done|].
        simpl in Hp.
        destruct (Nat.ltb_spec (length l0 + 1 + S (length rs)) 2); [lia|].
        apply lookup_ge_None in Hp. rewrite length_app in Hp.
        simpl in Hp. rewrite length_app in Hp. simpl in Hp. lia. }
  apply (IH (S iteration) (all ++ parse (c :: candles))
           (reqs0 ++ [datetime row]) row'); [done| |done|].
  - by rewrite last_app, Hl'.
  - assert (datetime row + second <= datetime row')%Z.
    { destruct Hw as [k1 Hk1], Hw' as [k2 Hk2]. rewrite Hk1, Hk2 in *.
      unfold second in *. lia. }
    assert (Z.to_nat ((end_dt - datetime row') / second)
            < Z.to_nat ((end_dt - datetime row) / second)); [|lia].
    apply measure_step; unfold millisecond in *; lia.
Qed.

(** On an orderly service the loop ends, within [enough] iterations. *)
Lemma fetch_loop_ends start_dt :
  (forall n f, (second | f)%Z -> orderly f (request n f)) ->
  is_Some (fetch_loop (enough start_dt end_dt) request end_dt 0 start_dt [] []).
Proof.
  intros Hord. unfold enough.
  replace (Z.to_nat ((end_dt - from_param start_dt) / second) + 2)
    with (S (S (Z.to_nat ((end_dt - from_param start_dt) / second)))) by lia.
  remember (S (Z.to_nat ((end_dt - from_param start_dt) / second))) as fuel'
    eqn:Hfuel.
  simpl. destruct (_ <? _)%Z eqn:Hlt; [|done]. apply Z.ltb_lt in Hlt.
  pose proof (Hord 1 (from_param start_dt) (from_param_whole _)) as Ho.
  destruct (request 1 (from_param start_dt)) as [|[|c candles]];
    [done|done|].
  unfold orderly in Ho. simpl in Ho. cbn beta iota zeta.
  destruct (last (parse (c :: candles))) as [row'|] eqn:Hl'; [|done].
  rewrite Forall_forall in Ho.
  destruct (Ho row' (last_Some_elem_of _ _ Hl')) as [Hle' Hw'].
  match goal with |- context [if ?b then _ else _] => destruct b end; [done|].
  destruct (Z.geb_spec (datetime row' + millisecond) end_dt) as [|Hlt'];
    [done|].
  apply fetch_loop_ends_after; try done.
  assert (Z.to_nat ((end_dt - datetime row') / second)
          <= Z.to_nat ((end_dt - from_param start_dt) / second)); [|lia].
  apply Z2Nat.inj_le.
  - apply Z.div_pos; [unfold millisecond in *; lia|by unfold second].
  - apply Z.div_pos; [|by unfold second].
    pose proof (from_param_le start_dt). lia.
  - apply Z.div_le_mono; [by unfold second|lia].
Qed.

(** A service that answers every request with the same page, of which the
    last two complete candles are in increasing order and the last is before
    [end_dt], keeps the loop going for ever. *)
Lemma fetch_loop_repeats candles pre a b fuel :
  (forall n f, request n f = Data candles) ->
  parse candles = pre ++ [a; b] ->
  (datetime a < datetime b)%Z ->
  (datetime b + millisecond < end_dt)%Z ->
  forall iteration next_from all reqs0,
    (next_from < end_dt)%Z ->
    fetch_loop fuel request end_dt iteration next_from all reqs0 = None.
Proof.
  intros Hreq Hparse Hab Hb.
  induction fuel as [|fuel IH]; intros iteration next_from all reqs0 Hlt;
    [done|].
  simpl. rewrite (proj2 (Z.ltb_lt _ _) Hlt), Hreq.
  destruct candles as [|c candles'] eqn:Hc.
  { by destruct pre. }
  rewrite Hparse.
  replace (last (pre ++ [a; b])) with (Some b)
    by (by rewrite !last_app).
  assert (second_to_last (all ++ pre ++ [a; b]) = Some a) as ->.
  { unfold second_to_last. rewrite !app_assoc, length_app. simpl.
    destruct (Nat.ltb_spec (length (all ++ pre) + 2) 2); [lia|].
    rewrite lookup_app_r by lia.
    by replace (_ + 2 - 2 - _) with 0 by lia. }
  rewrite (proj2 (Z.leb_gt _ _) Hab), andb_false_r.
  destruct (Z.geb_spec (datetime b + millisecond) end_dt); [lia|].
  by apply IH.
Qed.

End Loop.

(** ** Properties of [get_oanda_client] and [fetch_instrument_candles] *)

(** X13.  [get_oanda_client] returns exactly when both variables have a
    non-empty value, the environment's or else the [.env] file's, and then
    returns those values; in every other case it raises [ValueError].  A
    variable that the environment holds hides the [.env] file's, so an empty
    one in the environment makes the call fail. *)
Theorem get_oanda_client_spec (dotenv environ : gmap string string) :
  (forall api account_id,
     (get_oanda_client dotenv environ).2 = Returns (api, account_id) <->
     resolve dotenv environ "OANDA_API_KEY" = Some (access_token api) /\
     access_token api <> ""%string /\
     resolve dotenv environ "OANDA_ACCOUNT_ID" = Some account_id /\
     account_id <> ""%string) /\
  ((forall x, (get_oanda_client dotenv environ).2 <> Returns x) ->
   (get_oanda_client dotenv environ).2 = Raises ValueError) /\
  (forall k,
     k = "OANDA_API_KEY"%string \/ k = "OANDA_ACCOUNT_ID"%string ->
     environ !! k = Some ""%string ->
     (get_oanda_client dotenv environ).2 = Raises ValueError).
Proof.
  rewrite get_oanda_client_cases. unfold has_credentials.
  split; [|split].
  - intros [token] account_id. simpl.
    destruct (truthy (resolve dotenv environ "OANDA_API_KEY")) eqn:Hk,
      (truthy (resolve dotenv environ "OANDA_ACCOUNT_ID")) eqn:Ha; simpl.
    + apply truthy_spec in Hk as (k & Hk & Hkne).
      apply truthy_spec in Ha as (a & Ha & Hane).
      rewrite Hk, Ha. simpl. split.
      * by intros [= <- <-].
      * by intros ([= ->] & _ & [= ->] & _).
    + split; [done|]. intros (_ & _ & Hr & Hne).
      assert (truthy (resolve dotenv environ "OANDA_ACCOUNT_ID") = true)
        by (apply truthy_spec; eauto). congruence.
    + split; [done|]. intros (Hr & Hne & _).
      assert (truthy (resolve dotenv environ "OANDA_API_KEY") = true)
        by (apply truthy_spec; eauto). congruence.
    + split; [done|]. intros (Hr & Hne & _).
      assert (truthy (resolve dotenv environ "OANDA_API_KEY") = true)
        by (apply truthy_spec; eauto). congruence.
  - destruct (_ && _); [|done]. intros H. exfalso. by eapply H.
  - intros k Hk He.
    assert (truthy (resolve dotenv environ k) = false) as Hf
      by (unfold resolve; by rewrite He).
    destruct Hk as [-> | ->]; rewrite Hf; [done|]. by rewrite andb_false_r.
Qed.

(** X14.  Without credentials [fetch_instrument_candles] raises the
    [ValueError] of [get_oanda_client], which it calls outside its [try]: it
    does not return [None], makes no request and writes no file. *)
Theorem fetch_without_credentials (fuel : nat) (w : world)
    (instrument granularity : string) (start end_ : option Z) (count : nat) :
  has_credentials (dotenv w) (environ w) = false ->
  fetch_instrument_candles fuel w instrument granularity start end_ count
  = Some {| requests := []; saved := None; value := Raises ValueError |}.
Proof.
  intros H. unfold fetch_instrument_candles.
  by rewrite get_oanda_client_cases, H.
Qed.

(** X15.  When a call returns a frame, its rows are the complete candles of
    the answers received, answer after answer in the order of the requests,
    nothing dropped, merged or reordered; the file written holds the same
    rows, and no file is written for an empty frame. *)
Theorem fetched_frame_is_the_pages (fuel : nat) (w : world)
    (instrument granularity : string) (start end_ : option Z) (count : nat)
    (r : fetched) (rows : list bar_row) :
  fetch_instrument_candles fuel w instrument granularity start end_ count
  = Some r ->
  value r = Returns (Some rows) ->
  rows = concat (rows_of <$> answers (request w) 0 (requests r)) /\
  saved r = match rows with
            | [] => None
            | _ :: _ =>
                Some (save_path_of w instrument granularity start end_, rows)
            end.
Proof.
  unfold fetch_instrument_candles.
  destruct (get_oanda_client _ _).2; [|by intros [= <-]].
  destruct (fetch_loop _ _ _ _ _ _ _) as [[reqs e]|] eqn:Hloop; [|done].
  apply fetch_loop_spec in Hloop as (new & -> & Hrows & _).
  destruct e as [all|x]; [|by intros [= <-]].
  simpl in Hrows. subst all.
  destruct (concat _) as [|row all] eqn:Hc.
  - intros [= <-]. simpl. intros [= <-]. by rewrite Hc.
  - destruct (csv_writable w); intros [= <-]; simpl; [|done].
    intros [= <-]. by rewrite Hc.
Qed.

(** X16.  With credentials, a call returns [None], and has saved nothing,
    when the last answer received had candles of which none was complete,
    whatever had been gathered before, and when rows were gathered and the
    file could not be written. *)
Theorem incomplete_page_or_disk_gives_none (fuel : nat) (w : world)
    (instrument granularity : string) (start end_ : option Z) (count : nat)
    (r : fetched) :
  fetch_instrument_candles fuel w instrument granularity start end_ count
  = Some r ->
  has_credentials (dotenv w) (environ w) = true ->
  (exists a, last (answers (request w) 0 (requests r)) = Some a /\
             incomplete_only a = true) \/
  (csv_writable w = false /\
   concat (rows_of <$> answers (request w) 0 (requests r)) <> []) ->
  value r = Returns None /\ saved r = None.
Proof.
  unfold fetch_instrument_candles. intros Hr Hcred.
  rewrite get_oanda_client_cases, Hcred in Hr.
  destruct (fetch_loop _ _ _ _ _ _ _) as [[reqs e]|] eqn:Hloop; [|done].
  apply fetch_loop_spec in Hloop as (new & -> & Hrows & Hend).
  simpl in *.
  destruct e as [all|x]; [|by injection Hr as <-].
  subst all.
  assert (forall a, last (answers (request w) 0 new) = Some a ->
            incomplete_only a = false) as Hlast.
  { intros a Ha. by rewrite Ha in Hend. }
  destruct (concat _) as [|row all] eqn:Hc.
  - injection Hr as <-. simpl. rewrite Hc.
    intros [(a & Ha & Hi)|(_ & Hne)]; [|done].
    by rewrite (Hlast a Ha) in Hi.
  - destruct (csv_writable w) eqn:Hw; injection Hr as <-; simpl; [|done].
    intros [(a & Ha & Hi)|(? & _)]; [|done].
    by rewrite (Hlast a Ha) in Hi.
Qed.

(** X17.  On a service whose complete candles are at whole seconds and not
    before the instant asked for, every call ends: [enough] iterations
    suffice, more change nothing, and the call makes at most that many
    requests. *)
Theorem orderly_service_ends (w : world) (instrument granularity : string)
    (start end_ : option Z) (count : nat) :
  (forall n f, (second | f)%Z -> orderly f (request w n f)) ->
  exists r,
    length (requests r)
    <= enough (start_dt_of w start) (end_dt_of w start end_) /\
    forall fuel,
      enough (start_dt_of w start) (end_dt_of w start end_) <= fuel ->
      fetch_instrument_candles fuel w instrument granularity start end_ count
      = Some r.
Proof.
  intros Hord.
  set (n := enough (start_dt_of w start) (end_dt_of w start end_)).
  destruct (fetch_loop_ends (request w) (end_dt_of w start end_)
              (start_dt_of w start) Hord) as [[reqs e] Hloop].
  fold n in Hloop.
  assert (forall fuel, n <= fuel ->
            fetch_loop fuel (request w) (end_dt_of w start end_) 0
              (start_dt_of w start) [] [] = Some (reqs, e)) as Hmore.
  { intros fuel Hle. replace fuel with (n + (fuel - n)) by lia.
    by apply fetch_loop_more. }
  pose proof (fetch_loop_requests _ _ _ _ _ _ _ _ _ Hloop) as Hlen.
  simpl in Hlen.
  destruct (fetch_instrument_candles n w instrument granularity start end_
              count) as [r|] eqn:Hr.
  2:{ unfold fetch_instrument_candles in Hr.
      destruct (get_oanda_client _ _).2; [|done].
      rewrite Hloop in Hr. destruct e as [[|]|]; try done.
      by destruct (csv_writable w). }
  exists r. split.
  - unfold fetch_instrument_candles in Hr.
    destruct (get_oanda_client _ _).2; [|injection Hr as <-; simpl; lia].
    rewrite Hloop in Hr. destruct e as [[|]|]; try (by injection Hr as <-).
    destruct (csv_writable w); by injection Hr as <-.
  - intros fuel Hle. rewrite <- Hr. unfold fetch_instrument_candles.
    destruct (get_oanda_client _ _).2; [|done].
    by rewrite Hloop, (Hmore fuel Hle).
Qed.

(** X18.  The check for a stalled timestamp looks at the last two rows
    only: a service that answers every request with the same page, whose last
    two complete candles are in increasing order and end before [end_dt],
    keeps the call requesting for ever. *)
Theorem repeating_service_never_ends (w : world)
    (instrument granularity : string) (start end_ : option Z) (count : nat)
    (candles : list candle) (pre : list bar_row) (a b : bar_row) :
  has_credentials (dotenv w) (environ w) = true ->
  (forall n f, request w n f = Data candles) ->
  parse candles = pre ++ [a; b] ->
  (datetime a < datetime b)%Z ->
  (datetime b + millisecond < end_dt_of w start end_)%Z ->
  (start_dt_of w start < end_dt_of w start end_)%Z ->
  forall fuel,
    fetch_instrument_candles fuel w instrument granularity start end_ count
    = None.
Proof.
  intros Hcred Hreq Hparse Hab Hb Hlt fuel. unfold fetch_instrument_candles.
  rewrite get_oanda_client_cases, Hcred.
  by rewrite (fetch_loop_repeats (request w) _ candles pre a b fuel).
Qed.

(** X19.  A request that fails does not make the call fail: with
    credentials and a disk that can be written, a call whose last answer was
    a failure returns the frame of the rows gathered before it, and has saved
    that frame unless it is empty (as it is when the first request failed),
    without a word to the caller that the range was not covered. *)
Theorem failed_request_returns_partial_frame (fuel : nat) (w : world)
    (instrument granularity : string) (start end_ : option Z) (count : nat)
    (r : fetched) :
  fetch_instrument_candles fuel w instrument granularity start end_ count
  = Some r ->
  has_credentials (dotenv w) (environ w) = true ->
  csv_writable w = true ->
  last (answers (request w) 0 (requests r)) = Some RequestFailed ->
  value r
  = Returns (Some (concat (rows_of <$> answers (request w) 0 (requests r)))) /\
  saved r
  = match concat (rows_of <$> answers (request w) 0 (requests r)) with
    | [] => None
    | (_ :: _) as rows =>
        Some (save_path_of w instrument granularity start end_, rows)
    end.
Proof.
  unfold fetch_instrument_candles. intros Hr Hcred Hw.
  rewrite get_oanda_client_cases, Hcred in Hr.
  destruct (fetch_loop _ _ _ _ _ _ _) as [[reqs e]|] eqn:Hloop; [|done].
  apply fetch_loop_spec in Hloop as (new & -> & Hrows & Hend).
  simpl in *. destruct e as [all|x].
  - subst all. rewrite Hw in Hr.
    destruct (concat _) as [|row all] eqn:Hc; injection Hr as <-; simpl;
      intros _; rewrite Hc; split; reflexivity.
  - injection Hr as <-. simpl. intros Hlast. by rewrite Hlast in Hend.
Qed.

(** ** On sample services *)

(** An empty key in the environment hides the key of the [.env] file. *)
Lemma get_oanda_client_spec_sample :
  environ shadowed_world !! "OANDA_API_KEY"%string = Some ""%string /\
  dotenv shadowed_world !! "OANDA_API_KEY"%string = Some "key"%string /\
  (get_oanda_client (dotenv shadowed_world) (environ shadowed_world)).2
  = Raises ValueError.
Proof.
  split; [vm_compute; reflexivity|]. split; [vm_compute; reflexivity|].
  destruct (get_oanda_client_spec (dotenv shadowed_world)
              (environ shadowed_world)) as (_ & _ & Hempty).
  apply (Hempty "OANDA_API_KEY"%string); [by left|].
  vm_compute. reflexivity.
Defined.

(** The same world: the call raises before any request. *)
Lemma fetch_without_credentials_sample :
  has_credentials (dotenv shadowed_world) (environ shadowed_world) = false /\
  fetch_instrument_candles 5 shadowed_world "EUR_USD" "S5"
    (Some 0%Z) (Some (3 * second)%Z) 5000
  = Some {| requests := []; saved := None; value := Raises ValueError |}.
Proof.
  split; [vm_compute; reflexivity|].
  apply fetch_without_credentials. vm_compute. reflexivity.
Defined.

(** Three seconds of a service with a candle every second: three requests,
    six rows, the candle at each page boundary twice. *)
Lemma fetched_frame_is_the_pages_sample :
  exists r rows,
    fetch_instrument_candles 10 (sample_world every_second) "EUR_USD" "S5"
      (Some 0%Z) (Some (3 * second)%Z) 5000 = Some r /\
    value r = Returns (Some rows) /\
    requests r = [0; second; 2 * second]%Z /\
    datetime <$> rows
    = [0; second; second; 2 * second; 2 * second; 3 * second]%Z /\
    rows = concat (rows_of <$> answers every_second 0 (requests r)) /\
    (exists path, saved r = Some (path, rows)).
Proof.
  eexists _, _. split; [vm_compute; reflexivity|].
  split; [reflexivity|]. split; [reflexivity|]. split; [reflexivity|].
  destruct (fetched_frame_is_the_pages 10 (sample_world every_second)
              "EUR_USD" "S5" (Some 0%Z) (Some (3 * second)%Z) 5000 _ _
              eq_refl eq_refl) as [Hrows Hsaved].
  split; [exact Hrows|]. eexists. exact Hsaved.
Defined.

(** A second page that holds only the candle still forming: [None], and the
    two candles of the first page are lost. *)
Lemma incomplete_page_or_disk_gives_none_sample :
  exists r,
    fetch_instrument_candles 10 (sample_world forming) "EUR_USD" "S5"
      (Some 0%Z) (Some (3 * second)%Z) 5000 = Some r /\
    has_credentials (dotenv (sample_world forming))
      (environ (sample_world forming)) = true /\
    length (requests r) = 2 /\
    (exists a, last (answers forming 0 (requests r)) = Some a /\
               incomplete_only a = true) /\
    value r = Returns None /\
    saved r = None.
Proof.
  eexists. split; [vm_compute; reflexivity|].
  assert (has_credentials (dotenv (sample_world forming))
            (environ (sample_world forming)) = true) as Hcred
    by (vm_compute; reflexivity).
  split; [exact Hcred|]. split; [reflexivity|].
  assert (exists a,
            last (answers forming 0 [0; second]%Z) = Some a /\
            incomplete_only a = true) as Hlast.
  { eexists. split; [vm_compute; reflexivity|]. vm_compute. reflexivity. }
  split; [exact Hlast|].
  apply (incomplete_page_or_disk_gives_none 10 (sample_world forming)
           "EUR_USD" "S5" (Some 0%Z) (Some (3 * second)%Z) 5000 _ eq_refl
           Hcred).
  left. exact Hlast.
Defined.

(** A service that fails at the second request: the two candles of the
    first page are returned and saved. *)
Lemma failed_request_returns_partial_frame_sample :
  exists r rows,
    fetch_instrument_candles 10 (sample_world failing) "EUR_USD" "S5"
      (Some 0%Z) (Some (3 * second)%Z) 5000 = Some r /\
    last (answers failing 0 (requests r)) = Some RequestFailed /\
    value r = Returns (Some rows) /\
    datetime <$> rows = [0; second]%Z /\
    exists path, saved r = Some (path, rows).
Proof.
  eexists _, _. split; [vm_compute; reflexivity|].
  split; [reflexivity|].
  destruct (failed_request_returns_partial_frame 10 (sample_world failing)
              "EUR_USD" "S5" (Some 0%Z) (Some (3 * second)%Z) 5000 _ eq_refl
              eq_refl eq_refl eq_refl) as [Hv Hs].
  split; [exact Hv|]. split; [reflexivity|]. eexists. exact Hs.
Defined.

Lemma every_second_orderly n f :
  (second | f)%Z -> orderly f (every_second n f).
Proof.
  intros Hf. unfold orderly, every_second, rows_of, parse. simpl.
  apply Forall_cons. split; [split; [simpl; lia|done]|].
  apply Forall_cons. split; [|constructor]. simpl. split.
  - unfold second. lia.
  - apply Z.divide_add_r; [done|apply Z.divide_refl].
Qed.

(** The service with a candle every second, over three seconds: five
    iterations are enough. *)
Lemma orderly_service_ends_sample :
  (forall n f, (second | f)%Z -> orderly f (every_second n f)) /\
  exists r,
    length (requests r) <= 5 /\
    forall fuel,
      5 <= fuel ->
      fetch_instrument_candles fuel (sample_world every_second) "EUR_USD" "S5"
        (Some 0%Z) (Some (3 * second)%Z) 5000 = Some r.
Proof.
  split; [exact every_second_orderly|].
  exact (orderly_service_ends (sample_world every_second) "EUR_USD" "S5"
           (Some 0%Z) (Some (3 * second)%Z) 5000 every_second_orderly).
Defined.

(** The service that repeats one page of two candles, asked for ten
    seconds. *)
Lemma repeating_service_never_ends_sample :
  has_credentials (dotenv (sample_world stuck)) (environ (sample_world stuck))
  = true /\
  forall fuel,
    fetch_instrument_candles fuel (sample_world stuck) "EUR_USD" "S5"
      (Some 0%Z) None 5000 = None.
Proof.
  split; [vm_compute; reflexivity|].
  apply (repeating_service_never_ends (sample_world stuck) "EUR_USD" "S5"
           (Some 0%Z) None 5000 [tick 0 None; tick second None] []
           {| datetime := 0; open := 1; high := 2; low := 0; close := 1;
              volume := 10 |}
           {| datetime := second; open := 1; high := 2; low := 0; close := 1;
              volume := 10 |}).
  - vm_compute. reflexivity.
  - reflexivity.
  - reflexivity.
  - reflexivity.
  - reflexivity.
  - reflexivity.
Defined.

End OandaSpec.

